(** * clog: the format-string expansion engine of [clog.h], embedded in Rocq

    The development follows the layout of the header:
    - C strings and [size_t] arithmetic;
    - the growable output buffer ([_clog_append_str], [_clog_append_int],
      [_clog_append_time]);
    - [_clog_basename] and the two-state template scanner [_clog_format];
    - the sink configuration ([clog_init_file], [clog_init_console]) and the
      entry point [_clog_log].

    Conventions.  A [const char*] argument is the sequence of bytes found at
    the pointer; the C string it denotes is the prefix before the first NUL
    ([c_str]).  [size_t] is the 64-bit unsigned type of an LP64 POSIX
    platform, [int] is 32 bits wide.  Conditional compilation is a [build]
    record of booleans, and everything the header obtains from libc or the
    operating system at run time (allocation, clock, [open], [write]) is a
    [world] record of oracles. *)

From Stdlib Require Import ZArith Lia List Bool Ascii String.
From Stdlib Require Import Numbers.DecimalString Numbers.DecimalZ Numbers.DecimalPos.
From Stdlib Require Import Numbers.DecimalFacts.
Import ListNotations.

Local Open Scope string_scope.
Local Open Scope Z_scope.

(* ================================================================= *)
(** ** Outcomes of running a piece of C *)

(** Ways in which a call can fail to return. *)
Inductive fault : Type :=
| NullDeref      (* a libc string function was handed NULL *)
| Hang           (* the doubling loop of [_clog_append_str] never exits *)
| StaleVaList    (* a [va_list] was read again after a callee consumed it *)
| OutOfBounds    (* read past the end of [CLOG_LEVEL_NAMES] *)
| BadRealloc.    (* [realloc] of a pointer that is not a heap block *)

Inductive outcome (A : Type) : Type :=
| Ret (a : A)
| Stuck (f : fault).

Arguments Ret {A} a.
Arguments Stuck {A} f.

Definition bind {A B : Type} (c : outcome A) (k : A -> outcome B) : outcome B :=
  match c with
  | Ret a => k a
  | Stuck f => Stuck f
  end.

Notation "x <- c ;; k" := (bind c (fun x => k))
  (at level 61, c at next level, right associativity).
Notation "' p <- c ;; k" := (bind c (fun x => match x with p => k end))
  (at level 61, p pattern, c at next level, right associativity).

(* ================================================================= *)
(** ** C strings *)

Module CString.

Definition NUL : ascii := "000"%char.
Definition LF : ascii := "010"%char.

(** The C string stored at a pointer: the bytes before the terminator. *)
Fixpoint c_str (s : string) : string :=
  match s with
  | EmptyString => EmptyString
  | String a s' => if (a =? NUL)%char then EmptyString else String a (c_str s')
  end.

Definition strlen (s : string) : Z := Z.of_nat (String.length (c_str s)).

(** [contains c s]: the byte [c] occurs in [s]. *)
Fixpoint contains (c : ascii) (s : string) : bool :=
  match s with
  | EmptyString => false
  | String a s' => (a =? c)%char || contains c s'
  end.

(** [strrchr s c] for a byte [c] other than NUL: the suffix of [s] that
    starts at the last occurrence of [c] before the terminator, or [None]
    (the NULL pointer) when there is none. *)
Fixpoint strrchr (s : string) (c : ascii) : option string :=
  match s with
  | EmptyString => None
  | String a s' =>
      if (a =? NUL)%char then None
      else match strrchr s' c with
           | Some r => Some r
           | None => if (a =? c)%char then Some s else None
           end
  end.

(** Pointer increment [p + 1] on a string pointer. *)
Definition next (s : string) : string :=
  match s with
  | EmptyString => EmptyString
  | String _ s' => s'
  end.

(** [n] copies of the byte [c]. *)
Fixpoint replicate (n : nat) (c : ascii) : string :=
  match n with
  | O => EmptyString
  | S n' => String c (replicate n' c)
  end.

(** The first [n] bytes of [s]. *)
Fixpoint take (n : nat) (s : string) : string :=
  match n, s with
  | S n', String a s' => String a (take n' s')
  | _, _ => EmptyString
  end.

End CString.
Import CString.

(* ================================================================= *)
(** ** Machine integers *)

Module Machine.

Definition SIZE_MAX1 : Z := 2 ^ 64.
Definition INT_MAX : Z := 2 ^ 31 - 1.

(** Reduction of a mathematical result to [size_t]. *)
Definition to_size (x : Z) : Z := x mod SIZE_MAX1.

(** Reduction to [int] (two's complement). *)
Definition to_int (x : Z) : Z := (x + 2 ^ 31) mod 2 ^ 32 - 2 ^ 31.

End Machine.
Import Machine.

(* ================================================================= *)
(** ** Build configuration and run-time environment *)

(** The preprocessor symbols the header tests. *)
Record build : Type := {
  CLOG_TIME_SUPPORT : bool;
  CLOG_FILE_SUPPORT : bool;
  CLOG_SILENT : bool;
  _WIN32 : bool
}.

(** What libc and the operating system answer during one call. *)
Record world : Type := {
  (** does [malloc]/[realloc] of that many bytes succeed *)
  alloc_ok : Z -> bool;
  (** the text [strftime] produces for a pattern at the current local time *)
  strftime_text : string -> string;
  (** the value of [clock()] *)
  clock_ticks : Z;
  (** the value of [open(path, O_CREAT|O_WRONLY|O_APPEND, 0666)] *)
  open_result : string -> Z;
  (** the value of [write(fd, text, strlen(text))], an [ssize_t] *)
  write_result : Z -> string -> Z
}.

(* ================================================================= *)
(** ** Memory seen by the expander *)

(** The two regions an expansion can write to: the caller's scratch array and
    at most one heap block. *)
Inductive ptr : Type := PNull | PScratch | PHeap.

Definition ptr_eqb (p q : ptr) : bool :=
  match p, q with
  | PNull, PNull | PScratch, PScratch | PHeap, PHeap => true
  | _, _ => false
  end.

(** The C string currently held by each region. *)
Record memory : Type := {
  scratch : string;
  heap : string
}.

Definition load (m : memory) (p : ptr) : outcome string :=
  match p with
  | PNull => Stuck NullDeref
  | PScratch => Ret (scratch m)
  | PHeap => Ret (heap m)
  end.

Definition store (m : memory) (p : ptr) (s : string) : outcome memory :=
  match p with
  | PNull => Stuck NullDeref
  | PScratch => Ret {| scratch := s; heap := heap m |}
  | PHeap => Ret {| scratch := scratch m; heap := s |}
  end.

Definition malloc (w : world) (n : Z) : ptr :=
  if alloc_ok w n then PHeap else PNull.

Definition realloc (w : world) (p : ptr) (n : Z) : outcome ptr :=
  match p with
  | PHeap => Ret (if alloc_ok w n then PHeap else PNull)
  | PNull => Ret (malloc w n)
  | PScratch => Stuck BadRealloc
  end.

(** [strcpy(dst, src)] where [src] is itself a pointer into [memory]. *)
Definition strcpy (m : memory) (dst src : ptr) : outcome memory :=
  s <- load m src ;;
  store m dst (c_str s).

(** [strcat(dst, src)] with [src] outside [memory]. *)
Definition strcat (m : memory) (dst : ptr) (src : string) : outcome memory :=
  d <- load m dst ;;
  store m dst (c_str d ++ c_str src).

(* ================================================================= *)
(** ** The growable buffer *)

(** The statement [new_size *= 2;]. *)
Definition double (s : Z) : Z := to_size (s * 2).

(** The loop [while (strlen(result) + strlen(src) >= new_size) new_size *= 2;]
    with [need] the (loop-invariant) left-hand side.  [None] stands for a
    loop that has not exited within [fuel] doublings. *)
Fixpoint grow (fuel : nat) (need new_size : Z) : option Z :=
  if new_size <=? need then
    match fuel with
    | O => None
    | S fuel' => grow fuel' need (double new_size)
    end
  else Some new_size.

(** After 64 doublings a [size_t] is zero and stays zero, so 64 rounds decide
    the loop (see [grow_64_decides]). *)
Definition grow_size (need cur_size : Z) : option Z := grow 64 need cur_size.

(** A buffer as [_clog_format] holds it: the memory, the pointer [result]
    and the capacity [cur_size]. *)
Definition buffer : Type := (memory * ptr * Z)%type.

Definition _clog_append_str (w : world) (m : memory) (dst orig_buf : ptr)
    (src : string) (cur_size : Z) : outcome buffer :=
  d <- load m dst ;;
  match grow_size (to_size (strlen d + strlen src)) cur_size with
  | None => Stuck Hang
  | Some new_size =>
      '(m1, dst1) <-
        (if new_size =? cur_size then Ret (m, dst)
         else if ptr_eqb dst orig_buf then
           let p := malloc w new_size in
           m' <- strcpy m p orig_buf ;;
           Ret (m', p)
         else
           p <- realloc w dst new_size ;;
           Ret (m, p)) ;;
      m2 <- strcat m1 dst1 src ;;
      Ret (m2, dst1, new_size)
  end.

(** ["%ld"] conversion of a [long]. *)
Definition decimal (d : Z) : string := NilZero.string_of_int (Z.to_int d).

(** [snprintf(buf, size, "%ld", d)]: the return value is the length of the
    full text, [buf] receives at most [size - 1] bytes of it. *)
Definition snprintf_ld (size : Z) (d : Z) : Z * string :=
  (Z.of_nat (String.length (decimal d)),
   take (Z.to_nat (size - 1)) (decimal d)).

Definition _clog_append_int (w : world) (m : memory) (dst orig_buf : ptr)
    (d : Z) (cur_size : Z) : outcome buffer :=
  let '(n, buf) := snprintf_ld 40 d in
  if 40 <=? n then Ret (m, dst, cur_size)
  else _clog_append_str w m dst orig_buf buf cur_size.

Definition CLOG_DATETIME_LENGTH : Z := 256.

(** [strftime(buf, max, fmt, lt)]: the number of bytes placed in [buf] when
    the text and its terminator fit in [max] bytes, and 0 otherwise. *)
Definition strftime (w : world) (max : Z) (fmt : string) : Z * string :=
  let text := c_str (strftime_text w (c_str fmt)) in
  if Z.of_nat (String.length text) + 1 <=? max
  then (Z.of_nat (String.length text), text)
  else (0, EmptyString).

Definition _clog_append_time (w : world) (m : memory) (dst orig_buf : ptr)
    (fmt : string) (cur_size : Z) : outcome buffer :=
  let '(result, buf) := strftime w CLOG_DATETIME_LENGTH fmt in
  if 0 <? result then _clog_append_str w m dst orig_buf buf cur_size
  else Ret (m, dst, cur_size).

(* ================================================================= *)
(** ** The logger and the template expander *)

Definition CLOG_FORMAT_LENGTH : Z := 256.

(** A console output function [int f(const char* format, ...)], by the value
    it returns for the text it is handed. *)
Definition console : Type := string -> Z.

(** [struct clog]; the field [fun] is spelled [fun_]. *)
Record clog : Type := {
  fd : Z;
  fun_ : option console;
  fmt : string;
  date_fmt : string;
  time_fmt : string
}.

Definition CLOG_DEFAULT_FORMAT (b : build) : string :=
  if CLOG_TIME_SUPPORT b
  then "%d %t.%h %l: %e: %f(%n): %g: %m" ++ String LF EmptyString
  else "%l: %e: %f(%n): %g: %m" ++ String LF EmptyString.

(** The initial value of [_clog_logger], with [printf] as console function. *)
Definition _clog_logger (b : build) (printf : console) : clog :=
  {| fd := 0;
     fun_ := Some printf;
     fmt := CLOG_DEFAULT_FORMAT b;
     date_fmt := "%Y-%m-%d";
     time_fmt := "%H:%M:%S" |}.

Definition _clog_basename (b : build) (path : string) : string :=
  let path1 :=
    match strrchr path "/" with
    | Some slash => next slash
    | None => path
    end in
  if _WIN32 b then
    match strrchr path1 "\" with
    | Some slash => next slash
    | None => path1
    end
  else path1.

(** The parameters [sfile], [sline], [sfunction], [smodule], [level] and
    [message] of [_clog_format]. *)
Record context : Type := {
  sfile : string;
  sline : Z;
  sfunction : string;
  smodule : string;
  level : string;
  message : string
}.

Inductive scan_state : Type := NORMAL | SUBST.

(** The [switch] of the [SUBST] branch. *)
Definition substitute (b : build) (w : world) (logger : clog) (x : context)
    (c : ascii) (r : buffer) : outcome buffer :=
  let '(m, result, cur_size) := r in
  if (c =? "%")%char then
    _clog_append_str w m result PScratch "%" cur_size
  else if CLOG_TIME_SUPPORT b && (c =? "t")%char then
    _clog_append_time w m result PScratch (time_fmt logger) cur_size
  else if CLOG_TIME_SUPPORT b && (c =? "d")%char then
    _clog_append_time w m result PScratch (date_fmt logger) cur_size
  else if CLOG_TIME_SUPPORT b && (c =? "h")%char then
    _clog_append_int w m result PScratch (clock_ticks w) cur_size
  else if (c =? "l")%char then
    _clog_append_str w m result PScratch (level x) cur_size
  else if (c =? "e")%char then
    _clog_append_str w m result PScratch (smodule x) cur_size
  else if (c =? "g")%char then
    _clog_append_str w m result PScratch (sfunction x) cur_size
  else if (c =? "n")%char then
    _clog_append_int w m result PScratch (sline x) cur_size
  else if (c =? "f")%char then
    _clog_append_str w m result PScratch (sfile x) cur_size
  else if (c =? "m")%char then
    _clog_append_str w m result PScratch (message x) cur_size
  else Ret r.

(** One iteration of the [for] loop over the template. *)
Definition format_step (b : build) (w : world) (logger : clog) (x : context)
    (st : scan_state) (r : buffer) (c : ascii) : outcome (scan_state * buffer) :=
  match st with
  | NORMAL =>
      if (c =? "%")%char then Ret (SUBST, r)
      else
        let '(m, result, cur_size) := r in
        let str := String c (String NUL EmptyString) in
        r' <- _clog_append_str w m result PScratch str cur_size ;;
        Ret (NORMAL, r')
  | SUBST =>
      r' <- substitute b w logger x c r ;;
      Ret (NORMAL, r')
  end.

(** The loop [for (i = 0; i < fmtlen; ++i)], by recursion on the bytes
    [fmt[0] .. fmt[fmtlen-1]]. *)
Fixpoint format_loop (b : build) (w : world) (logger : clog) (x : context)
    (t : string) (st : scan_state) (r : buffer) : outcome (scan_state * buffer) :=
  match t with
  | EmptyString => Ret (st, r)
  | String c t' =>
      '(st', r') <- format_step b w logger x st r c ;;
      format_loop b w logger x t' st' r'
  end.

(** The assignment [sfile = _clog_basename(sfile);]: the context the loop
    of [_clog_format] works with. *)
Definition based (b : build) (x : context) : context :=
  {| sfile := _clog_basename b (sfile x);
     sline := sline x;
     sfunction := sfunction x;
     smodule := smodule x;
     level := level x;
     message := message x |}.

(** [_clog_format]: [buf] is the scratch region, of [buf_size] bytes.  The
    value is the returned pointer together with the memory it points into
    and the final capacity. *)
Definition _clog_format (b : build) (w : world) (logger : clog)
    (buf_size : Z) (x : context) : outcome buffer :=
  let x' := based b x in
  m0 <- store {| scratch := EmptyString; heap := EmptyString |} PScratch EmptyString ;;
  '(_, r) <- format_loop b w logger x' (c_str (fmt logger)) NORMAL (m0, PScratch, buf_size) ;;
  Ret r.

(** The C string a buffer's pointer designates. *)
Definition text_of (r : buffer) : outcome string :=
  let '(m, result, _) := r in load m result.

(** The text an expansion produces. *)
Definition expansion (b : build) (w : world) (logger : clog)
    (buf_size : Z) (x : context) : outcome string :=
  r <- _clog_format b w logger buf_size x ;;
  text_of r.

(** The state of the scanner after a template prefix; it does not depend on
    the buffer. *)
Fixpoint scan (st : scan_state) (t : string) : scan_state :=
  match t with
  | EmptyString => st
  | String c t' =>
      match st with
      | NORMAL => scan (if (c =? "%")%char then SUBST else NORMAL) t'
      | SUBST => scan NORMAL t'
      end
  end.

(* ================================================================= *)
(** ** Sink configuration *)

(** The messages the header hands to [_clog_err]. *)
Inductive diag : Type :=
| UnableToOpen (path : string)
| InvalidPointer
| FormattingFailed1
| FormattingFailed2
| UnableToWrite.

(** [_clog_err]: what reaches [stderr]. *)
Definition _clog_err (b : build) (d : diag) : list diag :=
  if CLOG_SILENT b then [] else [d].

Definition set_sink (logger : clog) (fd' : Z) (fun' : option console) : clog :=
  {| fd := fd'; fun_ := fun';
     fmt := fmt logger; date_fmt := date_fmt logger; time_fmt := time_fmt logger |}.

(** [clog_init_file]: the returned [int], the logger afterwards, and the
    diagnostics written. *)
Definition clog_init_file (b : build) (w : world) (logger : clog)
    (path : string) : Z * clog * list diag :=
  if CLOG_FILE_SUPPORT b then
    let fd' := open_result w path in
    if fd' =? -1 then (1, logger, _clog_err b (UnableToOpen path))
    else (1, set_sink logger fd' None, [])
  else (0, set_sink logger (fd logger) None, []).

Definition clog_init_console (b : build) (logger : clog)
    (f : option console) : Z * clog * list diag :=
  match f with
  | None => (1, logger, _clog_err b InvalidPointer)
  | Some _ =>
      (0, set_sink logger (if CLOG_FILE_SUPPORT b then 0 else fd logger) f, [])
  end.

(** Where [_clog_log] sends a finished line. *)
Inductive sink : Type :=
| FileSink (fd : Z)
| ConsoleSink (f : console)
| NoSink.

(** The [if (logger->fd) ... else if (logger->fun) ...] cascade. *)
Definition active_sink (b : build) (logger : clog) : sink :=
  if CLOG_FILE_SUPPORT b && negb (fd logger =? 0) then FileSink (fd logger)
  else match fun_ logger with
       | Some f => ConsoleSink f
       | None => NoSink
       end.

(* ================================================================= *)
(** ** The log entry point *)

Inductive clog_level : Type :=
| LEVEL_DEBUG | LEVEL_INFO | LEVEL_WARN | LEVEL_ERROR | LEVEL_NONE.

Definition level_index (l : clog_level) : nat :=
  match l with
  | LEVEL_DEBUG => 0
  | LEVEL_INFO => 1
  | LEVEL_WARN => 2
  | LEVEL_ERROR => 3
  | LEVEL_NONE => 4
  end%nat.

Definition CLOG_LEVEL_NAMES : list string := ["D"; "I"; "W"; "E"]%list.

(** [CLOG_LEVEL_NAMES[level]]. *)
Definition level_name (l : clog_level) : outcome string :=
  match nth_error CLOG_LEVEL_NAMES (level_index l) with
  | Some s => Ret s
  | None => Stuck OutOfBounds
  end.

(** The gate of the [LOG_D], [LOG_I], [LOG_W] and [LOG_E] macros. *)
Definition gate (module_level call_level : clog_level) : bool :=
  (level_index module_level <=? level_index call_level)%nat.

(** The variadic part [fmt, ...] of one call, by what [vsnprintf] makes of
    it: the text it renders, and whether rendering fetches at least one
    argument with [va_arg]. *)
Record printf_call : Type := {
  rendered : string;
  fetches : bool
}.

(** A [va_list] in the caller: usable, or indeterminate because a callee
    fetched from it (ISO C 7.16p3) and neither [va_copy] nor a new
    [va_start] intervened. *)
Inductive va_list : Type := VaReady | VaIndeterminate.

(** [vsnprintf(dst, size, fmt, ap)]: the returned [int], the C string left
    in [dst], and the caller's [ap] afterwards.  The return value is the
    length of the whole text, or negative when that exceeds [INT_MAX]; at
    most [size - 1] bytes are stored. *)
Definition vsnprintf (dst : ptr) (size : Z) (call : printf_call) (ap : va_list)
  : outcome (Z * string * va_list) :=
  match ap with
  | VaIndeterminate => Stuck StaleVaList
  | VaReady =>
      if ptr_eqb dst PNull && (0 <? size) then Stuck NullDeref
      else
        let text := c_str (rendered call) in
        let n := Z.of_nat (String.length text) in
        let ap' := if fetches call then VaIndeterminate else VaReady in
        if INT_MAX <? n then Ret (-1, EmptyString, ap')
        else Ret (n, take (Z.to_nat (size - 1)) text, ap')
  end.

(** The user message once formatted: where [dynbuf] points ([PScratch] is
    the stack array [buf]), the size of that region, its text, the last
    [vsnprintf] result and the number of [vsnprintf] calls made. *)
Record user_message : Type := {
  dynbuf : ptr;
  dyn_size : Z;
  dyn_text : string;
  dyn_result : Z;
  passes : nat
}.

(** The block "Format the message text with the argument list" of
    [_clog_log].  [None] is the abandoned call of "Formatting failed (1)". *)
Definition format_message (w : world) (call : printf_call)
  : outcome (option user_message) :=
  let buf_size := 4096 in
  '(result, text, ap) <- vsnprintf PScratch buf_size call VaReady ;;
  if buf_size <=? to_size result then
    let buf_size := to_size (to_int (result + 1)) in
    let p := malloc w buf_size in
    '(result, text, ap) <- vsnprintf p buf_size call ap ;;
    if buf_size <=? to_size result then Ret None
    else Ret (Some {| dynbuf := p; dyn_size := buf_size; dyn_text := text;
                      dyn_result := result; passes := 2 |})
  else Ret (Some {| dynbuf := PScratch; dyn_size := buf_size; dyn_text := text;
                    dyn_result := result; passes := 1 |}).

(** What one call of [_clog_log] does, as seen from outside. *)
Record log_report : Type := {
  (** the formatted user message, unless the call was abandoned first *)
  user : option user_message;
  (** the finished line and the region holding it *)
  line : option (ptr * string);
  (** the sink called and the text handed to it *)
  sent : option (sink * string);
  (** diagnostics written through [_clog_err] *)
  errors : list diag;
  (** [free(message)] and [free(dynbuf)] *)
  freed_line : bool;
  freed_message : bool
}.

Definition _clog_log (b : build) (w : world) (logger : clog)
    (sfile : string) (sline : Z) (sfunction smodule : string)
    (lvl : clog_level) (call : printf_call) : outcome log_report :=
  um <- format_message w call ;;
  match um with
  | None =>
      Ret {| user := None; line := None; sent := None;
             errors := _clog_err b FormattingFailed1;
             freed_line := false; freed_message := true |}
  | Some u =>
      name <- level_name lvl ;;
      '(m, msg, cur) <- _clog_format b w logger 4096
          {| sfile := sfile; sline := sline; sfunction := sfunction;
             smodule := smodule; level := name; message := dyn_text u |} ;;
      if ptr_eqb msg PNull then
        Ret {| user := Some u; line := None; sent := None;
               errors := _clog_err b FormattingFailed2;
               freed_line := false;
               freed_message := negb (ptr_eqb (dynbuf u) PScratch) |}
      else
        text <- load m msg ;;
        let '(result, target) :=
          match active_sink b logger with
          | FileSink d =>
              (* [int result = write(...)]: the [ssize_t] is cut to an [int] *)
              (to_int (write_result w d text), Some (FileSink d, text))
          | ConsoleSink f => (f text, Some (ConsoleSink f, text))
          | NoSink => (dyn_result u, None)
          end in
        Ret {| user := Some u; line := Some (msg, text); sent := target;
               errors := if result =? -1 then _clog_err b UnableToWrite else [];
               freed_line := negb (ptr_eqb msg PScratch);
               freed_message := negb (ptr_eqb (dynbuf u) PScratch) |}
  end.

(* ================================================================= *)
(** ** Closing the file, and the logging macros *)

(** [clog_close_file]: the descriptor handed to [close], if any.  The logger
    itself is not modified. *)
Definition clog_close_file (b : build) (logger : clog) : option Z :=
  if CLOG_FILE_SUPPORT b && negb (fd logger =? 0) then Some (fd logger) else None.

(** [clog_control_block_t], as [clog_create_module] defines one. *)
Record clog_control_block_t : Type := {
  module_name : string;
  module_level : clog_level
}.

(** The body shared by [LOG_D], [LOG_I], [LOG_W] and [LOG_E]: the call of
    [_clog_log] under the test [module_level <= severity].  [None] is the
    call that was gated off. *)
Definition log_macro (severity : clog_level) (b : build) (w : world)
    (logger : clog) (cb : clog_control_block_t)
    (file : string) (line_no : Z) (function : string) (call : printf_call)
  : outcome (option log_report) :=
  if gate (module_level cb) severity then
    rep <- _clog_log b w logger file line_no function (module_name cb) severity call ;;
    Ret (Some rep)
  else Ret None.

Definition LOG_D := log_macro LEVEL_DEBUG.
Definition LOG_I := log_macro LEVEL_INFO.
Definition LOG_W := log_macro LEVEL_WARN.
Definition LOG_E := log_macro LEVEL_ERROR.

(* ================================================================= *)
(** ** Specification vocabulary *)

(** [s] contains no NUL byte: it is its own C string. *)
Definition nul_free (s : string) : Prop := c_str s = s.

(** The resources an expansion from a scratch region of [C] bytes needs to
    hold [L] bytes of text and the terminator: some capacity of the doubling
    sequence [C, 2C, 4C, ...] exceeds [L] and is a [size_t], and the
    allocator grants every request above [C] up to it. *)
Definition fits (w : world) (C L : Z) : Prop :=
  0 < C /\
  exists k : nat,
    L < C * 2 ^ Z.of_nat k < SIZE_MAX1 /\
    forall n, C < n <= C * 2 ^ Z.of_nat k -> alloc_ok w n = true.

(** [cap] is the least member of [C, 2C, 4C, ...] that is at least [n]. *)
Definition least_doubling (C n cap : Z) : Prop :=
  exists i : nat,
    cap = C * 2 ^ Z.of_nat i /\
    n <= cap /\
    forall j : nat, n <= C * 2 ^ Z.of_nat j -> cap <= C * 2 ^ Z.of_nat j.

(** The buffer [r], grown from a scratch region of [C] bytes, holds exactly
    the text [s]: its pointer designates [s], its capacity is the least
    doubling of [C] that leaves room for the terminator, and it still lives
    in the scratch region exactly when it never grew. *)
Definition holds (C : Z) (r : buffer) (s : string) : Prop :=
  let '(m, p, cap) := r in
  load m p = Ret s /\
  nul_free s /\
  least_doubling C (Z.of_nat (String.length s) + 1) cap /\
  (p = PScratch /\ cap = C \/ p = PHeap /\ C < cap).

(** Appending the strings of a list, in order, the way [_clog_format] chains
    its calls of [_clog_append_str]. *)
Fixpoint append_all (w : world) (r : buffer) (srcs : list string) : outcome buffer :=
  match srcs with
  | nil => Ret r
  | src :: srcs' =>
      let '(m, p, cap) := r in
      r' <- _clog_append_str w m p PScratch src cap ;;
      append_all w r' srcs'
  end.

(** The bytes a list of appended strings contributes. *)
Fixpoint joined (srcs : list string) : string :=
  match srcs with
  | nil => EmptyString
  | src :: srcs' => c_str src ++ joined srcs'
  end.

(** The fresh buffer of [_clog_format] after [result[0] = 0]. *)
Definition fresh (C : Z) : buffer :=
  ({| scratch := EmptyString; heap := EmptyString |}, PScratch, C).

(** The separators [_clog_basename] cuts at. *)
Definition is_separator (b : build) (c : ascii) : bool :=
  (c =? "/")%char || (_WIN32 b && (c =? "\")%char).

Fixpoint has_separator (b : build) (s : string) : bool :=
  match s with
  | EmptyString => false
  | String a s' => is_separator b a || has_separator b s'
  end.

(** The selectors the [switch] of [_clog_format] has a [case] for. *)
Definition recognized (b : build) (c : ascii) : bool :=
  (c =? "%")%char || (c =? "l")%char || (c =? "e")%char || (c =? "g")%char ||
  (c =? "n")%char || (c =? "f")%char || (c =? "m")%char ||
  (CLOG_TIME_SUPPORT b &&
     ((c =? "t")%char || (c =? "d")%char || (c =? "h")%char)).

(** The string a selector hands to [_clog_append_str], or [None] when the
    [switch] appends nothing for it. *)
Definition substitution (b : build) (w : world) (logger : clog) (x : context)
    (c : ascii) : option string :=
  let time_piece (pattern : string) :=
    let '(result, buf) := strftime w CLOG_DATETIME_LENGTH pattern in
    if 0 <? result then Some buf else None in
  let int_piece (d : Z) :=
    let '(n, buf) := snprintf_ld 40 d in
    if 40 <=? n then None else Some buf in
  if (c =? "%")%char then Some "%"
  else if CLOG_TIME_SUPPORT b && (c =? "t")%char then time_piece (time_fmt logger)
  else if CLOG_TIME_SUPPORT b && (c =? "d")%char then time_piece (date_fmt logger)
  else if CLOG_TIME_SUPPORT b && (c =? "h")%char then int_piece (clock_ticks w)
  else if (c =? "l")%char then Some (level x)
  else if (c =? "e")%char then Some (smodule x)
  else if (c =? "g")%char then Some (sfunction x)
  else if (c =? "n")%char then int_piece (sline x)
  else if (c =? "f")%char then Some (sfile x)
  else if (c =? "m")%char then Some (message x)
  else None.

(** The text a template denotes when read from scanner state [st]. *)
Fixpoint rendering (b : build) (w : world) (logger : clog) (x : context)
    (t : string) (st : scan_state) : string :=
  match t with
  | EmptyString => EmptyString
  | String c t' =>
      match st with
      | NORMAL =>
          if (c =? "%")%char then rendering b w logger x t' SUBST
          else String c (rendering b w logger x t' NORMAL)
      | SUBST =>
          match substitution b w logger x c with
          | Some src => c_str src
          | None => EmptyString
          end ++ rendering b w logger x t' NORMAL
      end
  end.

(** A build with file support, and a world whose [open] hands out the
    descriptor [d] for every path. *)
Definition file_build : build :=
  {| CLOG_TIME_SUPPORT := false; CLOG_FILE_SUPPORT := true;
     CLOG_SILENT := false; _WIN32 := false |}.

Definition opening (d : Z) : world :=
  {| alloc_ok := fun _ => true;
     strftime_text := fun _ => EmptyString;
     clock_ticks := 0;
     open_result := fun _ => d;
     write_result := fun _ s => strlen s |}.

(** The scratch region holds a prefix of the text of a migrated buffer. *)
Definition scratch_is_prefix (r : buffer) : Prop :=
  let '(m, p, _) := r in
  nul_free (scratch m) /\
  (p = PScratch \/
   p = PHeap /\ exists rest, heap m = scratch m ++ rest /\ nul_free rest).

(** A world in which every allocation succeeds. *)
Definition generous (text : string -> string) (ticks : Z) : world :=
  {| alloc_ok := fun _ => true;
     strftime_text := text;
     clock_ticks := ticks;
     open_result := fun _ => 3;
     write_result := fun _ s => strlen s |}.

Definition quiet_world : world := generous (fun _ => EmptyString) 0.

(** [logger] with another template. *)
Definition with_fmt (logger : clog) (t : string) : clog :=
  {| fd := fd logger; fun_ := fun_ logger;
     fmt := t; date_fmt := date_fmt logger; time_fmt := time_fmt logger |}.

(** The one-byte string holding a line feed. *)
Definition endl : string := String LF EmptyString.

Definition posix_build : build :=
  {| CLOG_TIME_SUPPORT := false; CLOG_FILE_SUPPORT := false;
     CLOG_SILENT := false; _WIN32 := false |}.

Definition windows_build : build :=
  {| CLOG_TIME_SUPPORT := false; CLOG_FILE_SUPPORT := false;
     CLOG_SILENT := false; _WIN32 := true |}.

(* ================================================================= *)
(** * Properties *)

(** ** C strings *)

Section CStringFacts.

Lemma length_append (s t : string) :
  String.length (s ++ t) = (String.length s + String.length t)%nat.
Proof. induction s as [|a s IH]; simpl; [reflexivity | now rewrite IH]. Qed.

Lemma append_empty_r (s : string) : s ++ EmptyString = s.
Proof. induction s as [|a s IH]; simpl; [reflexivity | now rewrite IH]. Qed.

Lemma append_assoc (s t u : string) : (s ++ t) ++ u = s ++ (t ++ u).
Proof. induction s as [|a s IH]; simpl; [reflexivity | now rewrite IH]. Qed.

Lemma c_str_nul_free (s : string) : nul_free (c_str s).
Proof.
  unfold nul_free. induction s as [|a s IH]; simpl; [reflexivity|].
  destruct (a =? NUL)%char eqn:E; simpl; [reflexivity|].
  now rewrite E, IH.
Qed.

Lemma nul_free_append (s t : string) :
  nul_free s -> nul_free t -> nul_free (s ++ t).
Proof.
  unfold nul_free. induction s as [|a s IH]; simpl; intros Hs Ht; [exact Ht|].
  destruct (a =? NUL)%char; [discriminate|].
  injection Hs as Hs. now rewrite IH.
Qed.

Lemma nul_free_contains (s : string) :
  nul_free s <-> contains NUL s = false.
Proof.
  unfold nul_free. induction s as [|a s IH]; simpl; [tauto|].
  destruct (a =? NUL)%char; simpl.
  - split; discriminate.
  - rewrite <- IH. split; [now injection 1 | now intros ->].
Qed.

Lemma c_str_append (s t : string) :
  nul_free s -> c_str (s ++ t) = s ++ c_str t.
Proof.
  unfold nul_free. induction s as [|a s IH]; simpl; intros Hs; [reflexivity|].
  destruct (a =? NUL)%char; [discriminate|].
  injection Hs as Hs. now rewrite IH.
Qed.

Lemma strlen_nonneg (s : string) : 0 <= strlen s.
Proof. unfold strlen. lia. Qed.

Lemma strlen_nul_free (s : string) :
  nul_free s -> strlen s = Z.of_nat (String.length s).
Proof. unfold strlen, nul_free. now intros ->. Qed.

Lemma c_str_single (c : ascii) :
  (c =? NUL)%char = false ->
  c_str (String c (String NUL EmptyString)) = String c EmptyString.
Proof. intros E. simpl. now rewrite E. Qed.

Lemma take_all (n : nat) (s : string) :
  (String.length s <= n)%nat -> take n s = s.
Proof.
  revert n. induction s as [|a s IH]; intros [|n] H; simpl in *;
    try reflexivity; try lia.
  now rewrite IH by lia.
Qed.

Lemma length_take (n : nat) (s : string) :
  String.length (take n s) = Nat.min n (String.length s).
Proof.
  revert n. induction s as [|a s IH]; intros [|n]; simpl; try reflexivity.
  now rewrite IH.
Qed.

Lemma length_replicate (n : nat) (c : ascii) :
  String.length (replicate n c) = n.
Proof. induction n; simpl; congruence. Qed.

End CStringFacts.

(** ** The doubling loop *)

Section Growth.

Lemma pow2_pos (n : nat) : 0 < 2 ^ Z.of_nat n.
Proof. apply Z.pow_pos_nonneg; lia. Qed.

Lemma pow2_succ (n : nat) : 2 ^ Z.of_nat (S n) = 2 * 2 ^ Z.of_nat n.
Proof. rewrite Nat2Z.inj_succ, Z.pow_succ_r by lia. reflexivity. Qed.

Lemma pow2_add (i j : nat) :
  2 ^ Z.of_nat (i + j) = 2 ^ Z.of_nat i * 2 ^ Z.of_nat j.
Proof. rewrite Nat2Z.inj_add, Z.pow_add_r by lia. reflexivity. Qed.

Lemma pow2_le (i j : nat) : (i <= j)%nat -> 2 ^ Z.of_nat i <= 2 ^ Z.of_nat j.
Proof. intros H. apply Z.pow_le_mono_r; lia. Qed.

Lemma pow2_lt_inv (i j : nat) : 2 ^ Z.of_nat i < 2 ^ Z.of_nat j -> (i < j)%nat.
Proof. intros H. apply Z.pow_lt_mono_r_iff in H; lia. Qed.

Lemma to_size_small (x : Z) : 0 <= x < SIZE_MAX1 -> to_size x = x.
Proof. intros H. unfold to_size. now apply Z.mod_small. Qed.

(** While no doubling overflows, the loop stops at the first capacity
    above [need]. *)
Lemma grow_exact (fuel : nat) :
  forall (need cur : Z) (n : nat),
    0 < cur -> (n <= fuel)%nat ->
    need < cur * 2 ^ Z.of_nat n < SIZE_MAX1 ->
    exists m : nat,
      (m <= n)%nat /\
      grow fuel need cur = Some (cur * 2 ^ Z.of_nat m) /\
      need < cur * 2 ^ Z.of_nat m /\
      (m = 0%nat \/ cur * 2 ^ Z.of_nat (m - 1) <= need).
Proof.
  induction fuel as [|fuel IH]; intros need cur n Hcur Hn Hfit.
  - assert (n = 0%nat) by lia. subst n. simpl in Hfit.
    rewrite Z.mul_1_r in Hfit.
    exists 0%nat. simpl.
    destruct (cur <=? need) eqn:E; [apply Z.leb_le in E; lia|].
    rewrite Z.mul_1_r. repeat split; lia.
  - simpl. destruct (cur <=? need) eqn:E.
    + apply Z.leb_le in E.
      destruct n as [|n]; [simpl in Hfit; lia|].
      rewrite pow2_succ in Hfit.
      pose proof (pow2_pos n) as Hp.
      unfold double. rewrite to_size_small by nia.
      destruct (IH need (cur * 2) n) as (m & Hm & Hg & Hlt & Hmin);
        [lia | lia | nia |].
      exists (S m). rewrite pow2_succ.
      replace (cur * (2 * 2 ^ Z.of_nat m)) with (cur * 2 * 2 ^ Z.of_nat m) by ring.
      repeat split; try lia; try assumption.
      right. simpl. rewrite Nat.sub_0_r.
      destruct Hmin as [-> | Hmin]; [simpl; lia|].
      destruct m as [|m]; [simpl; lia|].
      rewrite pow2_succ. simpl in Hmin. rewrite Nat.sub_0_r in Hmin. nia.
    + apply Z.leb_gt in E. exists 0%nat. simpl.
      rewrite Z.mul_1_r. repeat split; lia.
Qed.

Lemma grow_stable (f : nat) :
  forall need cur r,
    grow f need cur = Some r ->
    forall g, (f <= g)%nat -> grow g need cur = Some r.
Proof.
  induction f as [|f IH]; intros need cur r H g Hg.
  - destruct g; simpl in *; destruct (cur <=? need); congruence.
  - destruct g as [|g]; [lia|]. simpl in *.
    destruct (cur <=? need); [|exact H].
    apply IH; [exact H | lia].
Qed.

Lemma grow_zero (f : nat) (need : Z) : 0 <= need -> grow f need 0 = None.
Proof.
  intros Hn. induction f as [|f IH]; simpl.
  - destruct (0 <=? need) eqn:E; [reflexivity | apply Z.leb_gt in E; lia].
  - destruct (0 <=? need) eqn:E; [exact IH | apply Z.leb_gt in E; lia].
Qed.

Lemma grow_none_shift (f : nat) :
  forall need cur,
    grow f need cur = None ->
    forall g, grow (S f + g) need cur = grow g need (Nat.iter (S f) double cur).
Proof.
  induction f as [|f IH]; intros need cur H g.
  - simpl in *. destruct (cur <=? need); [reflexivity | discriminate].
  - rewrite Nat.iter_succ_r.
    change (S (S f) + g)%nat with (S (S f + g)).
    simpl in H. cbn [grow].
    destruct (cur <=? need); [|discriminate].
    now apply IH.
Qed.

Lemma iter_double (n : nat) (x : Z) :
  Nat.iter (S n) double x = (x * 2 ^ Z.of_nat (S n)) mod SIZE_MAX1.
Proof.
  induction n as [|n IH].
  - reflexivity.
  - rewrite Nat.iter_succ, IH. unfold double, to_size.
    rewrite Z.mul_mod_idemp_l by (unfold SIZE_MAX1; lia).
    rewrite (pow2_succ (S n)). f_equal. ring.
Qed.

(** Sixty-four doublings clear every bit of a [size_t], and from capacity
    zero the loop never exits: a loop that has not stopped within the 64
    rounds of [grow_size] does not stop at all. *)
Lemma grow_64_decides (need cur : Z) (fuel : nat) :
  0 <= need -> grow_size need cur = None -> grow fuel need cur = None.
Proof.
  unfold grow_size. intros Hn H.
  assert (H63 : grow 63 need cur = None).
  { destruct (grow 63 need cur) eqn:E; [|reflexivity].
    rewrite (grow_stable _ _ _ _ E 64%nat) in H by lia. discriminate. }
  destruct (Nat.le_gt_cases fuel 64) as [Hle | Hgt].
  - destruct (grow fuel need cur) eqn:E; [|reflexivity].
    rewrite (grow_stable _ _ _ _ E 64%nat Hle) in H. discriminate.
  - replace fuel with (S 63 + (fuel - 64))%nat by lia.
    rewrite (grow_none_shift _ _ _ H63), iter_double.
    replace (Z.of_nat 64) with 64 by reflexivity.
    unfold SIZE_MAX1. rewrite Z.mod_mul by lia.
    now apply grow_zero.
Qed.

End Growth.

(** ** The growable buffer *)

Section Buffer.

Lemma scale_le (C : Z) (i j : nat) :
  0 < C -> (i <= j)%nat -> C * 2 ^ Z.of_nat i <= C * 2 ^ Z.of_nat j.
Proof. intros HC H. apply Z.mul_le_mono_nonneg_l; [lia | now apply pow2_le]. Qed.

Lemma scale_lt_inv (C : Z) (i j : nat) :
  0 < C -> C * 2 ^ Z.of_nat i < C * 2 ^ Z.of_nat j -> (i < j)%nat.
Proof.
  intros HC H. destruct (Nat.lt_ge_cases i j) as [Hlt | Hge]; [exact Hlt|].
  pose proof (scale_le C j i HC Hge). lia.
Qed.

Lemma scale_le_inv (C : Z) (i j : nat) :
  0 < C -> C * 2 ^ Z.of_nat i <= C * 2 ^ Z.of_nat j -> (i <= j)%nat.
Proof.
  intros HC H. destruct (Nat.le_gt_cases i j) as [Hle | Hgt]; [exact Hle|].
  assert (S j <= i)%nat as Hs by lia.
  pose proof (scale_le C (S j) i HC Hs) as H1.
  rewrite pow2_succ in H1. pose proof (pow2_pos j). nia.
Qed.

Lemma scale_add (C : Z) (i j : nat) :
  C * 2 ^ Z.of_nat i * 2 ^ Z.of_nat j = C * 2 ^ Z.of_nat (i + j).
Proof. rewrite pow2_add. ring. Qed.

Lemma scale_below_64 (c : Z) (n : nat) :
  0 < c -> c * 2 ^ Z.of_nat n < SIZE_MAX1 -> (n <= 64)%nat.
Proof.
  intros Hc H. unfold SIZE_MAX1 in H.
  assert (2 ^ Z.of_nat n < 2 ^ Z.of_nat 64) as Hp.
  { change (Z.of_nat 64) with 64. pose proof (pow2_pos n). nia. }
  apply pow2_lt_inv in Hp. lia.
Qed.

Variable w : world.
Variable C : Z.

(** One append on a buffer that holds [s]: the call returns, the buffer
    holds [s] followed by the C string of [src], and the capacity is the
    old one doubled [k] times, with [k] the least number that makes room. *)
Lemma append_str_holds (m : memory) (p : ptr) (cap : Z) (s src : string) :
  holds C (m, p, cap) s ->
  fits w C (Z.of_nat (String.length s) + strlen src) ->
  exists (m' : memory) (p' : ptr) (k : nat),
    _clog_append_str w m p PScratch src cap = Ret (m', p', cap * 2 ^ Z.of_nat k) /\
    holds C (m', p', cap * 2 ^ Z.of_nat k) (s ++ c_str src) /\
    Z.of_nat (String.length s) + strlen src < cap * 2 ^ Z.of_nat k /\
    (k = 0%nat \/
     cap * 2 ^ Z.of_nat (k - 1) <= Z.of_nat (String.length s) + strlen src) /\
    (p' = PHeap -> scratch m' = scratch m).
Proof.
  intros (Hload & Hnf & (i & Hcap & Hroom & Hleast) & Hptr) (HC & kk & Hk & Halloc).
  set (need := Z.of_nat (String.length s) + strlen src) in *.
  pose proof (strlen_nonneg src) as Hsrc.
  assert (Hneed : 0 <= need < SIZE_MAX1).
  { pose proof (pow2_pos kk). unfold need. lia. }
  assert (Hik : (i <= kk)%nat).
  { apply (scale_le_inv C); [exact HC|]. rewrite <- Hcap. apply Hleast. lia. }
  assert (Hcap0 : 0 < cap) by lia.
  assert (Hfit : need < cap * 2 ^ Z.of_nat (kk - i) < SIZE_MAX1).
  { rewrite Hcap, scale_add. replace (i + (kk - i))%nat with kk by lia. exact Hk. }
  destruct (grow_exact 64 need cap (kk - i) Hcap0
              (scale_below_64 _ _ Hcap0 (proj2 Hfit)) Hfit)
    as (k & Hkn & Hgrow & Hlt & Hmin).
  assert (Hlen : Z.of_nat (String.length (s ++ c_str src)) = need).
  { rewrite length_append, Nat2Z.inj_add. reflexivity. }
  assert (Hnf' : nul_free (s ++ c_str src)).
  { apply nul_free_append; [exact Hnf | apply c_str_nul_free]. }
  unfold _clog_append_str. rewrite Hload. cbn [bind].
  rewrite (strlen_nul_free s Hnf). fold need.
  rewrite (to_size_small need Hneed). unfold grow_size. rewrite Hgrow.
  destruct k as [|k].
  - (* no growth *)
    simpl (2 ^ Z.of_nat 0). rewrite Z.mul_1_r in *. rewrite Z.eqb_refl.
    cbn [bind]. unfold strcat. rewrite Hload. cbn [bind]. rewrite Hnf.
    destruct Hptr as [[-> ->] | [-> Hgt]]; cbn [store];
      eexists _, _, 0%nat; simpl (2 ^ Z.of_nat 0); rewrite ?Z.mul_1_r;
      (split; [reflexivity|]);
      (split; [| split; [exact Hlt | split; [now left | reflexivity + (intros _; reflexivity) + discriminate]]]).
    + repeat split; try assumption; try reflexivity.
      * exists i. rewrite Hlen. repeat split; try lia.
        intros j Hj. apply Hleast. lia.
      * left; split; [reflexivity | lia].
    + repeat split; try assumption; try reflexivity.
      * exists i. rewrite Hlen. repeat split; try lia.
        intros j Hj. apply Hleast. lia.
      * right; split; [reflexivity | lia].
  - (* growth by [S k] doublings *)
    destruct Hmin as [Hmin | Hmin]; [discriminate|].
    simpl (S k - 1)%nat in Hmin. rewrite Nat.sub_0_r in Hmin.
    pose proof (pow2_pos k) as Hpk.
    assert (Hnew : cap * 2 ^ Z.of_nat (S k) = C * 2 ^ Z.of_nat (i + S k)).
    { rewrite Hcap. apply scale_add. }
    assert (Hgt : cap < cap * 2 ^ Z.of_nat (S k)).
    { rewrite pow2_succ. nia. }
    assert (Hok : alloc_ok w (cap * 2 ^ Z.of_nat (S k)) = true).
    { apply Halloc. split.
      - pose proof (scale_le C 0 i HC ltac:(lia)) as H0.
        simpl in H0. lia.
      - rewrite Hnew. apply scale_le; [exact HC | lia]. }
    assert (Hne : (cap * 2 ^ Z.of_nat (S k) =? cap) = false).
    { apply Z.eqb_neq. lia. }
    assert (Hleast' : least_doubling C (need + 1) (cap * 2 ^ Z.of_nat (S k))).
    { exists (i + S k)%nat. repeat split; [exact Hnew | lia |].
      intros j Hj. rewrite Hnew. apply scale_le; [exact HC|].
      assert (C * 2 ^ Z.of_nat (i + k) < C * 2 ^ Z.of_nat j) as Hij.
      { rewrite <- scale_add, <- Hcap. lia. }
      apply scale_lt_inv in Hij; [lia | exact HC]. }
    rewrite Hne.
    destruct Hptr as [[-> ->] | [-> HgtC]].
    + cbn [ptr_eqb]. unfold malloc. rewrite Hok.
      unfold strcpy. cbn [load bind store] in *.
      injection Hload as Hload.
      unfold strcat. cbn [load bind store heap].
      rewrite Hload, Hnf, Hnf.
      eexists _, _, (S k). split; [reflexivity|].
      split; [| split; [exact Hlt | split; [right; simpl; rewrite Nat.sub_0_r; exact Hmin | intros _; reflexivity]]].
      repeat split; try assumption; try reflexivity.
      * rewrite Hlen. exact Hleast'.
      * right; split; [reflexivity | lia].
    + cbn [ptr_eqb realloc bind]. rewrite Hok. cbn [bind].
      unfold strcat. rewrite Hload. cbn [bind store]. rewrite Hnf.
      eexists _, _, (S k). split; [reflexivity|].
      split; [| split; [exact Hlt | split; [right; simpl; rewrite Nat.sub_0_r; exact Hmin | intros _; reflexivity]]].
      repeat split; try assumption; try reflexivity.
      * rewrite Hlen. exact Hleast'.
      * right; split; [reflexivity | lia].
Qed.

End Buffer.

Section BufferSequences.

Variable w : world.
Variable C : Z.

Lemma fits_less (L L' : Z) : fits w C L -> L' <= L -> fits w C L'.
Proof.
  intros (HC & k & Hk & Ha) HL. split; [exact HC|].
  exists k. split; [lia | exact Ha].
Qed.

Lemma holds_fresh : 0 < C -> holds C (fresh C) EmptyString.
Proof.
  intros HC. unfold holds, fresh. cbn [load scratch].
  repeat split.
  - exists 0%nat. simpl. repeat split; try lia.
    intros j _. pose proof (pow2_pos j). nia.
  - left. split; reflexivity.
Qed.

Lemma length_joined_app (xs ys : list string) :
  joined (xs ++ ys)%list = joined xs ++ joined ys.
Proof.
  induction xs as [|x xs IH]; simpl; [reflexivity|].
  now rewrite IH, append_assoc.
Qed.

(** A run of appends on a buffer that holds [s]. *)
Lemma append_all_holds (srcs : list string) :
  forall (r : buffer) (s : string),
    holds C r s ->
    fits w C (Z.of_nat (String.length (s ++ joined srcs))) ->
    exists r', append_all w r srcs = Ret r' /\ holds C r' (s ++ joined srcs).
Proof.
  induction srcs as [|src srcs IH]; intros [[m p] cap] s Hh Hfit.
  - simpl. rewrite append_empty_r. eauto.
  - simpl in *. rewrite length_append, length_append, Nat2Z.inj_add, Nat2Z.inj_add in Hfit.
    destruct (append_str_holds w C m p cap s src Hh) as (m' & p' & k & Hrun & Hh' & _).
    { apply (fits_less _ _ Hfit). unfold strlen. lia. }
    rewrite Hrun. cbn [bind].
    destruct (IH _ _ Hh') as (r' & Hr' & Hh'').
    { apply (fits_less _ _ Hfit).
      rewrite !length_append, !Nat2Z.inj_add. lia. }
    exists r'. split; [exact Hr'|]. now rewrite <- append_assoc.
Qed.

End BufferSequences.

(** C1.  Starting from the empty buffer in a scratch region of capacity [C],
    after any sequence [srcs] of appends the buffer holds exactly the bytes
    appended and its capacity is the least of [C, 2C, 4C, ...] that is at
    least the content length plus one; a further append of [src] returns
    with the capacity doubled the least number [k] of times for which the
    old length plus the length of [src] is below it (so not at all when
    they are below the current capacity), and the buffer then again holds
    exactly all bytes appended, under the least sufficient doubling of [C].
    The resources are assumed to suffice ([fits]): [C] is positive, the
    needed capacity is a [size_t], and allocations up to it succeed. *)
Theorem growable_buffer_doubles (w : world) (C : Z) (srcs : list string) (src : string) :
  fits w C (Z.of_nat (String.length (joined srcs)) + strlen src) ->
  exists (m : memory) (p : ptr) (cap : Z) (m' : memory) (p' : ptr) (k : nat),
    append_all w (fresh C) srcs = Ret (m, p, cap) /\
    load m p = Ret (joined srcs) /\
    least_doubling C (Z.of_nat (String.length (joined srcs)) + 1) cap /\
    _clog_append_str w m p PScratch src cap = Ret (m', p', cap * 2 ^ Z.of_nat k) /\
    Z.of_nat (String.length (joined srcs)) + strlen src < cap * 2 ^ Z.of_nat k /\
    (forall j : nat,
        Z.of_nat (String.length (joined srcs)) + strlen src < cap * 2 ^ Z.of_nat j ->
        (k <= j)%nat) /\
    load m' p' = Ret (joined srcs ++ c_str src) /\
    least_doubling C
      (Z.of_nat (String.length (joined srcs ++ c_str src)) + 1)
      (cap * 2 ^ Z.of_nat k).
Proof.
  intros Hfit.
  assert (HC : 0 < C) by (destruct Hfit; assumption).
  pose proof (strlen_nonneg src) as Hsrc.
  destruct (append_all_holds w C srcs (fresh C) EmptyString (holds_fresh C HC))
    as ([[m p] cap] & Hrun & Hh).
  { simpl. apply (fits_less _ _ _ _ Hfit). lia. }
  simpl in Hh.
  destruct (append_str_holds w C m p cap (joined srcs) src Hh Hfit)
    as (m' & p' & k & Hstep & Hh' & Hlt & Hmin & _).
  destruct Hh as (Hload & _ & Hleast & _).
  destruct Hh' as (Hload' & _ & Hleast' & _).
  exists m, p, cap, m', p', k.
  repeat split; try assumption.
  intros j Hj.
  destruct Hmin as [-> | Hmin]; [lia|].
  destruct Hleast as (i & Hcap & Hroom & _).
  assert (0 < cap) by lia.
  assert (cap * 2 ^ Z.of_nat (k - 1) < cap * 2 ^ Z.of_nat j) as Hkj by lia.
  apply scale_lt_inv in Hkj; lia.
Qed.

Lemma fits_scratch (w : world) (C L : Z) :
  0 < C < SIZE_MAX1 -> L < C -> fits w C L.
Proof.
  intros HC HL. split; [lia|]. exists 0%nat. simpl.
  rewrite Z.mul_1_r. split; [lia|]. intros n Hn. lia.
Qed.

(** Witness of [growable_buffer_doubles]: three appends of 2, 6 and 3 bytes
    into a scratch region of 4 bytes. *)
Lemma growable_buffer_doubles_witness :
  fits quiet_world 4
    (Z.of_nat (String.length (joined ["ab"; "cdefgh"]%list)) + strlen "ijk") /\
  exists (m : memory) (p : ptr) (cap : Z) (m' : memory) (p' : ptr) (k : nat),
    append_all quiet_world (fresh 4) ["ab"; "cdefgh"]%list = Ret (m, p, cap) /\
    _clog_append_str quiet_world m p PScratch "ijk" cap
      = Ret (m', p', cap * 2 ^ Z.of_nat k) /\
    load m' p' = Ret (joined ["ab"; "cdefgh"]%list ++ c_str "ijk").
Proof.
  assert (H : fits quiet_world 4
            (Z.of_nat (String.length (joined ["ab"; "cdefgh"]%list)) + strlen "ijk")).
  { split; [lia|]. exists 2%nat. split.
    - vm_compute. split; reflexivity.
    - intros n _. reflexivity. }
  split; [exact H|].
  destruct (growable_buffer_doubles quiet_world 4 ["ab"; "cdefgh"]%list "ijk" H)
    as (m & p & cap & m' & p' & k & H1 & _ & _ & H4 & _ & _ & H7 & _).
  exists m, p, cap, m', p', k. repeat split; assumption.
Defined.

(** ** The template scanner *)

Section Scanner.

Variable b : build.
Variable w : world.
Variable logger : clog.
Variable x : context.

Lemma format_loop_app (t1 t2 : string) :
  forall (st : scan_state) (r : buffer),
    format_loop b w logger x (t1 ++ t2) st r =
    ('(st', r') <- format_loop b w logger x t1 st r ;;
     format_loop b w logger x t2 st' r').
Proof.
  induction t1 as [|c t1 IH]; intros st r; simpl; [reflexivity|].
  destruct (format_step b w logger x st r c) as [[st' r']|f]; simpl;
    [apply IH | reflexivity].
Qed.

Lemma format_step_state (st st' : scan_state) (r r' : buffer) (c : ascii) :
  format_step b w logger x st r c = Ret (st', r') ->
  st' = scan st (String c EmptyString).
Proof.
  unfold format_step. destruct st; simpl.
  - destruct (c =? "%")%char.
    + now injection 1 as <- _.
    + destruct r as [[m p] cap].
      destruct (_clog_append_str _ _ _ _ _ _); simpl; [|discriminate].
      now injection 1 as <- _.
  - destruct (substitute _ _ _ _ _ _); simpl; [|discriminate].
    now injection 1 as <- _.
Qed.

(** The scanner state after a template does not depend on the buffer. *)
Lemma format_loop_state (t : string) :
  forall (st st' : scan_state) (r r' : buffer),
    format_loop b w logger x t st r = Ret (st', r') -> st' = scan st t.
Proof.
  induction t as [|c t IH]; intros st st' r r' H; simpl in H.
  - now injection H as <- _.
  - destruct (format_step b w logger x st r c) as [[st1 r1]|f] eqn:E;
      simpl in H; [|discriminate].
    apply format_step_state in E. apply IH in H. subst st1.
    simpl in *. destruct st; exact H.
Qed.

(** Literal text is copied byte for byte. *)
Lemma format_loop_literal (C : Z) (t : string) :
  forall (r : buffer) (s : string),
    nul_free t -> contains "%" t = false ->
    holds C r s ->
    fits w C (Z.of_nat (String.length s) + Z.of_nat (String.length t)) ->
    exists r', format_loop b w logger x t NORMAL r = Ret (NORMAL, r') /\
               holds C r' (s ++ t).
Proof.
  induction t as [|c t IH]; intros [[m p] cap] s Hnf Hpc Hh Hfit.
  - simpl. rewrite append_empty_r. eauto.
  - unfold nul_free in Hnf. simpl in Hnf, Hpc.
    destruct (c =? NUL)%char eqn:Hc; [discriminate|].
    injection Hnf as Hnf.
    apply orb_false_elim in Hpc as [Hpct Hpc].
    cbn [String.length] in Hfit. rewrite Nat2Z.inj_succ in Hfit.
    cbn [format_loop format_step]. rewrite Hpct.
    pose proof (c_str_single c Hc) as Hsingle.
    destruct (append_str_holds w C m p cap s (String c (String NUL EmptyString)) Hh)
      as (m' & p' & k & Hrun & Hh' & _).
    { apply (fits_less _ _ _ _ Hfit). unfold strlen. rewrite Hsingle. simpl. lia. }
    rewrite Hrun. cbn [bind]. rewrite Hsingle in Hh'.
    destruct (IH _ _ Hnf Hpc Hh') as (r' & Hr' & Hh'').
    { apply (fits_less _ _ _ _ Hfit). rewrite length_append, Nat2Z.inj_add. simpl. lia. }
    exists r'. split; [exact Hr'|].
    rewrite append_assoc in Hh''. exact Hh''.
Qed.

Lemma substitute_unrecognized (c : ascii) (r : buffer) :
  recognized b c = false -> substitute b w logger x c r = Ret r.
Proof.
  unfold recognized, substitute. intros H. destruct r as [[m p] cap].
  destruct (CLOG_TIME_SUPPORT b); cbn [andb] in *;
    repeat match goal with
           | E : _ || _ = false |- _ => apply orb_false_elim in E as [E ?]
           end;
    repeat match goal with
           | E : (_ =? _)%char = false |- _ => rewrite E; clear E
           end;
    reflexivity.
Qed.

End Scanner.

Section Templates.

Variable b : build.
Variable w : world.
Variable logger : clog.

(** The scanner reads the logger only for its date and time patterns. *)
Lemma format_loop_with_fmt (x : context) (T t : string) :
  forall (st : scan_state) (r : buffer),
    format_loop b w (with_fmt logger T) x t st r = format_loop b w logger x t st r.
Proof.
  induction t as [|c t IH]; intros st r; simpl; [reflexivity|].
  change (format_step b w (with_fmt logger T) x st r c)
    with (format_step b w logger x st r c).
  destruct (format_step b w logger x st r c) as [[st' r']|f]; simpl;
    [apply IH | reflexivity].
Qed.

Lemma c_str_append_any (s t : string) :
  c_str (s ++ t) = if contains NUL s then c_str s else s ++ c_str t.
Proof.
  induction s as [|a s IH]; simpl; [reflexivity|].
  destruct (a =? NUL)%char; simpl; [reflexivity|].
  rewrite IH. now destruct (contains NUL s).
Qed.

Lemma c_str_without_nul (s : string) : contains NUL s = false -> c_str s = s.
Proof. intros H. now apply nul_free_contains. Qed.

End Templates.

(** C8.  A template without ['%'] expands to itself, byte for byte, under
    every context: the text [_clog_format] returns is the C string stored in
    [logger->fmt].  The buffer is assumed able to take the text ([fits]). *)
Theorem literal_template_verbatim
    (b : build) (w : world) (logger : clog) (C : Z) (x : context) :
  contains "%" (c_str (fmt logger)) = false ->
  fits w C (strlen (fmt logger)) ->
  expansion b w logger C x = Ret (c_str (fmt logger)).
Proof.
  intros Hpc Hfit.
  assert (HC : 0 < C) by (destruct Hfit; assumption).
  unfold expansion, _clog_format. cbn [store bind heap scratch].
  destruct (format_loop_literal b w logger (based b x)
              C (c_str (fmt logger)) (fresh C) EmptyString
              (c_str_nul_free _) Hpc (holds_fresh C HC) Hfit)
    as ([[m p] cap] & Hrun & Hh).
  unfold fresh in Hrun. rewrite Hrun. cbn [bind text_of].
  destruct Hh as (Hload & _). exact Hload.
Qed.

(** Witness of [literal_template_verbatim]: the template ["plain text"] in a
    scratch region of 4 bytes. *)
Lemma literal_template_verbatim_witness :
  contains "%" (c_str "plain text") = false /\
  fits quiet_world 4 (strlen "plain text") /\
  expansion posix_build quiet_world
    (with_fmt (_clog_logger posix_build (fun _ => 0)) "plain text") 4
    {| sfile := "main.c"; sline := 7; sfunction := "main"; smodule := "NET";
       level := "E"; message := "m" |}
  = Ret "plain text".
Proof.
  assert (Hfit : fits quiet_world 4 (strlen "plain text")).
  { split; [lia|]. exists 2%nat. split.
    - vm_compute. split; reflexivity.
    - intros n _. reflexivity. }
  split; [reflexivity|]. split; [exact Hfit|].
  exact (literal_template_verbatim posix_build quiet_world
           (with_fmt (_clog_logger posix_build (fun _ => 0)) "plain text") 4
           {| sfile := "main.c"; sline := 7; sfunction := "main"; smodule := "NET";
              level := "E"; message := "m" |}
           eq_refl Hfit).
Defined.

(** C4.  A template that ends in a ['%'] met in literal state expands, under
    every context, capacity and environment, exactly as the template without
    that last byte: the returned buffer and the text are the same. *)
Theorem trailing_percent_dropped
    (b : build) (w : world) (logger : clog) (C : Z) (x : context) (T : string) :
  scan NORMAL T = NORMAL ->
  _clog_format b w (with_fmt logger (T ++ "%")) C x
    = _clog_format b w (with_fmt logger T) C x /\
  expansion b w (with_fmt logger (T ++ "%")) C x
    = expansion b w (with_fmt logger T) C x.
Proof.
  intros Hscan.
  assert (H : _clog_format b w (with_fmt logger (T ++ "%")) C x
              = _clog_format b w (with_fmt logger T) C x).
  { unfold _clog_format. cbn [fmt with_fmt store bind].
    rewrite c_str_append_any.
    destruct (contains NUL T) eqn:Hnul.
    - rewrite !format_loop_with_fmt. reflexivity.
    - rewrite (c_str_without_nul T Hnul).
      rewrite !format_loop_with_fmt, format_loop_app.
      match goal with
      | |- context [format_loop b w logger ?y T NORMAL ?r0] =>
          destruct (format_loop b w logger y T NORMAL r0) as [[st r]|f] eqn:E
      end; [|reflexivity].
      apply format_loop_state in E. rewrite Hscan in E. subst st.
      reflexivity. }
  split; [exact H|]. unfold expansion. now rewrite H.
Qed.

(** Witness of [trailing_percent_dropped]: ["100%%%"] is the literal
    ["100"], an escaped percent sign and a dangling ['%']. *)
Lemma trailing_percent_dropped_witness :
  scan NORMAL "100%%" = NORMAL /\
  expansion posix_build quiet_world
    (with_fmt (_clog_logger posix_build (fun _ => 0)) ("100%%" ++ "%")) 4096
    {| sfile := "main.c"; sline := 7; sfunction := "main"; smodule := "NET";
       level := "E"; message := "m" |}
  = expansion posix_build quiet_world
    (with_fmt (_clog_logger posix_build (fun _ => 0)) "100%%") 4096
    {| sfile := "main.c"; sline := 7; sfunction := "main"; smodule := "NET";
       level := "E"; message := "m" |}.
Proof.
  split; [reflexivity|].
  exact (proj2 (trailing_percent_dropped posix_build quiet_world
           (_clog_logger posix_build (fun _ => 0)) 4096
           {| sfile := "main.c"; sline := 7; sfunction := "main"; smodule := "NET";
              level := "E"; message := "m" |}
           "100%%" eq_refl)).
Defined.

(** C5.  In directive state a selector without a [case] in the [switch]
    (one outside ['%'], ['l'], ['e'], ['g'], ['n'], ['f'], ['m'] and, with
    time support, ['t'], ['d'], ['h']) leaves the buffer as it is and puts
    the scanner back in literal state; in particular the template
    ["%z%m\n"] with message ["x"] expands to ["x\n"]. *)
Theorem unknown_selector_ignored (b : build) (w : world) (logger : clog) :
  (forall (x : context) (c : ascii) (r : buffer),
      recognized b c = false ->
      format_step b w logger x SUBST r c = Ret (NORMAL, r)) /\
  (forall (f g e l : string) (n : Z),
      expansion b w (with_fmt logger ("%z%m" ++ endl)) 4096
        {| sfile := f; sline := n; sfunction := g; smodule := e;
           level := l; message := "x" |}
      = Ret ("x" ++ endl)).
Proof.
  split.
  - intros x c r H. unfold format_step.
    now rewrite substitute_unrecognized.
  - intros f g e l n. destruct b as [[] ? ? ?]; reflexivity.
Qed.

(** Witness of [unknown_selector_ignored]: the selector ['z'], and ['t']
    when time support is compiled out. *)
Lemma unknown_selector_ignored_witness :
  recognized posix_build "z" = false /\
  recognized posix_build "t" = false /\
  format_step posix_build quiet_world (_clog_logger posix_build (fun _ => 0))
    {| sfile := "main.c"; sline := 7; sfunction := "main"; smodule := "NET";
       level := "E"; message := "m" |} SUBST (fresh 4096) "z"
  = Ret (NORMAL, fresh 4096) /\
  format_step posix_build quiet_world (_clog_logger posix_build (fun _ => 0))
    {| sfile := "main.c"; sline := 7; sfunction := "main"; smodule := "NET";
       level := "E"; message := "m" |} SUBST (fresh 4096) "t"
  = Ret (NORMAL, fresh 4096).
Proof.
  split; [reflexivity|]. split; [reflexivity|].
  split;
    apply (proj1 (unknown_selector_ignored posix_build quiet_world
                    (_clog_logger posix_build (fun _ => 0))));
    reflexivity.
Defined.

(** C2.  With severity ERROR (whose entry in [CLOG_LEVEL_NAMES] is ["E"]),
    module name ["NET"] and user message ["connection lost"], the template
    ["%l: %e: %m\n"] expands to ["E: NET: connection lost\n"], whatever the
    file, line, function, build and environment. *)
Theorem scenario_error_net
    (b : build) (w : world) (logger : clog) (f g : string) (n : Z) :
  level_name LEVEL_ERROR = Ret "E" /\
  (name <- level_name LEVEL_ERROR ;;
   expansion b w (with_fmt logger ("%l: %e: %m" ++ endl)) 4096
     {| sfile := f; sline := n; sfunction := g; smodule := "NET";
        level := name; message := "connection lost" |})
  = Ret ("E: NET: connection lost" ++ endl).
Proof.
  split; [reflexivity|].
  destruct b as [[] ? ? ?]; reflexivity.
Qed.

(** ** Base names *)

Section Basename.

Lemma contains_append (c : ascii) (s t : string) :
  contains c (s ++ t) = contains c s || contains c t.
Proof.
  induction s as [|a s IH]; simpl; [reflexivity|].
  now rewrite IH, orb_assoc.
Qed.

Lemma strrchr_none (c : ascii) (s : string) :
  strrchr s c = None -> contains c (c_str s) = false.
Proof.
  induction s as [|a s IH]; simpl; [reflexivity|].
  destruct (a =? NUL)%char; [reflexivity|].
  destruct (strrchr s c); [discriminate|].
  destruct (a =? c)%char eqn:E; [discriminate|].
  intros _. simpl. now rewrite E, IH.
Qed.

(** A successful [strrchr] splits the string at the last occurrence. *)
Lemma strrchr_some (c : ascii) (s r : string) :
  strrchr s c = Some r ->
  exists pre,
    s = pre ++ String c (next r) /\
    r = String c (next r) /\
    nul_free pre /\
    contains c (c_str (next r)) = false.
Proof.
  revert r. induction s as [|a s IH]; simpl; intros r H; [discriminate|].
  destruct (a =? NUL)%char eqn:Ha; [discriminate|].
  destruct (strrchr s c) as [r'|] eqn:Hs.
  - injection H as <-.
    destruct (IH r' eq_refl) as (pre & Hsplit & Hr & Hnf & Hlast).
    exists (String a pre). repeat split; try assumption.
    + simpl. now rewrite <- Hsplit.
    + unfold nul_free in *. simpl. now rewrite Ha, Hnf.
  - destruct (a =? c)%char eqn:E; [|discriminate].
    injection H as <-. apply Ascii.eqb_eq in E. subst a.
    exists EmptyString. simpl. repeat split.
    now apply strrchr_none.
Qed.

Variable b : build.

Lemma has_separator_spec (s : string) :
  has_separator b s =
  contains "/" s || (_WIN32 b && contains "\" s).
Proof.
  induction s as [|a s IH]; simpl.
  - now rewrite andb_false_r.
  - rewrite IH. unfold is_separator.
    destruct (a =? "/")%char, (_WIN32 b), (a =? "\")%char,
      (contains "/" s), (contains "\" s); reflexivity.
Qed.

(** [_clog_basename] returns the part of the path after its last
    separator: the path is a prefix followed by the result, the prefix is
    empty or ends in a separator, and the result contains none. *)
Lemma basename_spec (path : string) :
  exists pre,
    c_str path = pre ++ c_str (_clog_basename b path) /\
    (pre = EmptyString \/
     exists pre' c, pre = pre' ++ String c EmptyString /\ is_separator b c = true) /\
    has_separator b (c_str (_clog_basename b path)) = false.
Proof.
  unfold _clog_basename.
  set (path1 := match strrchr path "/" with
                | Some slash => next slash
                | None => path
                end).
  assert (H1 : exists pre,
             c_str path = pre ++ c_str path1 /\
             (pre = EmptyString \/
              exists pre', pre = pre' ++ String "/"%char EmptyString) /\
             contains "/" (c_str path1) = false).
  { subst path1. destruct (strrchr path "/") as [slash|] eqn:E.
    - destruct (strrchr_some _ _ _ E) as (pre & Hsplit & _ & Hnf & Hlast).
      exists (pre ++ String "/"%char EmptyString). repeat split.
      + rewrite Hsplit at 1. rewrite (c_str_append _ _ Hnf), append_assoc.
        reflexivity.
      + right. now exists pre.
      + exact Hlast.
    - exists EmptyString. repeat split; [now left | now apply strrchr_none]. }
  destruct H1 as (pre1 & Hsplit1 & Hend1 & Hno1).
  destruct (_WIN32 b) eqn:Hwin.
  - destruct (strrchr path1 "\") as [slash|] eqn:E.
    + destruct (strrchr_some _ _ _ E) as (pre & Hsplit & _ & Hnf & Hlast).
      assert (Hc : c_str path1 = (pre ++ String "\"%char EmptyString) ++ c_str (next slash)).
      { rewrite Hsplit at 1. rewrite (c_str_append _ _ Hnf), append_assoc.
        reflexivity. }
      exists (pre1 ++ pre ++ String "\"%char EmptyString). repeat split.
      * rewrite Hsplit1, Hc, !append_assoc. reflexivity.
      * right. exists (pre1 ++ pre), "\"%char. split.
        -- now rewrite append_assoc.
        -- unfold is_separator. now rewrite Hwin.
      * rewrite has_separator_spec, Hwin, Hlast.
        rewrite Hc, contains_append in Hno1.
        apply orb_false_elim in Hno1 as [_ ->]. reflexivity.
    + exists pre1. repeat split.
      * exact Hsplit1.
      * destruct Hend1 as [-> | (pre' & ->)]; [now left|].
        right. exists pre', "/"%char. split; reflexivity.
      * rewrite has_separator_spec, Hno1, (strrchr_none _ _ E).
        now rewrite andb_false_r.
  - exists pre1. repeat split.
    + exact Hsplit1.
    + destruct Hend1 as [-> | (pre' & ->)]; [now left|].
      right. exists pre', "/"%char. split; reflexivity.
    + now rewrite has_separator_spec, Hno1, Hwin.
Qed.

Lemma substitute_f (w : world) (logger : clog) (x : context)
    (m : memory) (p : ptr) (cap : Z) :
  substitute b w logger x "f" (m, p, cap)
  = _clog_append_str w m p PScratch (sfile x) cap.
Proof. unfold substitute. destruct (CLOG_TIME_SUPPORT b); reflexivity. Qed.

End Basename.

(** C7.  The [%f] directive renders the source file path cut after its last
    separator: ['/'] on every platform, and also ['\'] where [_WIN32] is
    defined.  The path is some prefix followed by the rendered text, the
    prefix is empty or ends in a separator, and the rendered text contains
    no separator, so no directory component appears.  The buffer is assumed
    able to take the text ([fits]). *)
Theorem file_directive_is_basename
    (b : build) (w : world) (logger : clog) (C : Z) (x : context) :
  fits w C (strlen (_clog_basename b (sfile x))) ->
  exists pre out,
    expansion b w (with_fmt logger "%f") C x = Ret out /\
    out = c_str (_clog_basename b (sfile x)) /\
    c_str (sfile x) = pre ++ out /\
    (pre = EmptyString \/
     exists pre' c, pre = pre' ++ String c EmptyString /\ is_separator b c = true) /\
    has_separator b out = false.
Proof.
  intros Hfit.
  assert (HC : 0 < C) by (destruct Hfit; assumption).
  destruct (basename_spec b (sfile x)) as (pre & Hsplit & Hend & Hno).
  exists pre, (c_str (_clog_basename b (sfile x))).
  repeat split; try assumption.
  unfold expansion, _clog_format.
  cbn -[substitute _clog_basename].
  rewrite substitute_f. cbn [sfile based].
  destruct (append_str_holds w C _ _ _ _ (_clog_basename b (sfile x))
              (holds_fresh C HC)) as (m' & p' & k & Hrun & Hh & _).
  { exact Hfit. }
  rewrite Hrun. cbn [bind text_of].
  destruct Hh as (Hload & _). exact Hload.
Qed.

(** Witness of [file_directive_is_basename]: ["/a/b/c.ext"] renders as
    ["c.ext"], and so does ["a\b\c.ext"] where backslash is a separator. *)
Lemma file_directive_is_basename_witness :
  fits quiet_world 4096 (strlen (_clog_basename posix_build "/a/b/c.ext")) /\
  fits quiet_world 4096 (strlen (_clog_basename windows_build "a\b\c.ext")) /\
  expansion posix_build quiet_world
    (with_fmt (_clog_logger posix_build (fun _ => 0)) "%f") 4096
    {| sfile := "/a/b/c.ext"; sline := 7; sfunction := "main"; smodule := "NET";
       level := "E"; message := "m" |} = Ret "c.ext" /\
  expansion windows_build quiet_world
    (with_fmt (_clog_logger windows_build (fun _ => 0)) "%f") 4096
    {| sfile := "a\b\c.ext"; sline := 7; sfunction := "main"; smodule := "NET";
       level := "E"; message := "m" |} = Ret "c.ext".
Proof.
  assert (H1 : fits quiet_world 4096 (strlen (_clog_basename posix_build "/a/b/c.ext"))).
  { apply fits_scratch; [unfold SIZE_MAX1; lia | vm_compute; reflexivity]. }
  assert (H2 : fits quiet_world 4096 (strlen (_clog_basename windows_build "a\b\c.ext"))).
  { apply fits_scratch; [unfold SIZE_MAX1; lia | vm_compute; reflexivity]. }
  split; [exact H1|]. split; [exact H2|]. split.
  - destruct (file_directive_is_basename posix_build quiet_world
                (_clog_logger posix_build (fun _ => 0)) 4096
                {| sfile := "/a/b/c.ext"; sline := 7; sfunction := "main";
                   smodule := "NET"; level := "E"; message := "m" |} H1)
      as (pre & out & Hrun & Hout & _).
    rewrite Hrun, Hout. reflexivity.
  - destruct (file_directive_is_basename windows_build quiet_world
                (_clog_logger windows_build (fun _ => 0)) 4096
                {| sfile := "a\b\c.ext"; sline := 7; sfunction := "main";
                   smodule := "NET"; level := "E"; message := "m" |} H2)
      as (pre & out & Hrun & Hout & _).
    rewrite Hrun, Hout. reflexivity.
Defined.

(** ** Integer substitutions *)

Section Integers.

Lemma nul_free_uint (u : Decimal.uint) : nul_free (NilEmpty.string_of_uint u).
Proof. unfold nul_free. induction u; simpl; congruence. Qed.

Lemma nul_free_decimal (d : Z) : nul_free (decimal d).
Proof.
  unfold decimal, NilZero.string_of_int, NilZero.string_of_uint.
  destruct (Z.to_int d) as [u|u]; destruct u;
    try reflexivity; try apply nul_free_uint;
    unfold nul_free; cbn [c_str Ascii.eqb Bool.eqb NUL];
    try (rewrite (nul_free_uint _); reflexivity);
    f_equal; apply (nul_free_uint _).
Qed.

(** [decimal d] is a numeral that reads back as [d]. *)
Lemma decimal_reads_back (d : Z) :
  option_map Z.of_int (NilZero.int_of_string (decimal d)) = Some d.
Proof.
  unfold decimal. rewrite NilZero.isi.
  - simpl. now rewrite DecimalZ.of_to.
  - destruct d; simpl; try discriminate.
    intros [= H]. now apply DecimalPos.Unsigned.to_uint_nonnil in H.
  - destruct d; simpl; try discriminate.
    intros [= H]. now apply DecimalPos.Unsigned.to_uint_nonnil in H.
Qed.

Lemma snprintf_ld_fits (d : Z) :
  Z.of_nat (String.length (decimal d)) < 40 ->
  snd (snprintf_ld 40 d) = decimal d.
Proof.
  intros H. unfold snprintf_ld. cbn [snd].
  apply take_all. change (Z.to_nat (40 - 1)) with 39%nat. lia.
Qed.

End Integers.

(** C6.  An integer whose decimal text needs 40 characters or more is
    skipped: [_clog_append_int] returns the memory, pointer and capacity it
    was given.  An integer with a shorter text is appended as that text: the
    call is the append of [decimal d], so that a buffer holding [s] holds
    [s] followed by the decimal text afterwards. *)
Theorem wide_integer_skipped
    (w : world) (m : memory) (p orig_buf : ptr) (d : Z) (cap : Z) :
  (40 <= Z.of_nat (String.length (decimal d)) ->
   _clog_append_int w m p orig_buf d cap = Ret (m, p, cap)) /\
  (Z.of_nat (String.length (decimal d)) < 40 ->
   _clog_append_int w m p orig_buf d cap
     = _clog_append_str w m p orig_buf (decimal d) cap /\
   forall (C : Z) (s : string),
     holds C (m, p, cap) s ->
     fits w C (Z.of_nat (String.length s) + Z.of_nat (String.length (decimal d))) ->
     exists r, _clog_append_int w m p PScratch d cap = Ret r /\
               holds C r (s ++ decimal d)).
Proof.
  split.
  - intros H. unfold _clog_append_int, snprintf_ld.
    apply Z.leb_le in H. now rewrite H.
  - intros H.
    assert (E : forall o, _clog_append_int w m p o d cap
                          = _clog_append_str w m p o (decimal d) cap).
    { intros o. unfold _clog_append_int.
      pose proof (snprintf_ld_fits d H) as Hbuf.
      unfold snprintf_ld in *. cbn [snd] in Hbuf. rewrite Hbuf.
      destruct (40 <=? Z.of_nat (String.length (decimal d))) eqn:E;
        [apply Z.leb_le in E; lia | reflexivity]. }
    split; [apply E|].
    intros C s Hh Hfit. rewrite E.
    pose proof (nul_free_decimal d) as Hnf.
    destruct (append_str_holds w C m p cap s (decimal d) Hh)
      as (m' & p' & k & Hrun & Hh' & _).
    { unfold strlen. rewrite Hnf. exact Hfit. }
    rewrite Hnf in Hh'. eauto.
Qed.

(** Witness of [wide_integer_skipped]: [10^40] has 41 digits and is
    skipped; [-42] is appended as ["-42"]. *)
Lemma wide_integer_skipped_witness :
  40 <= Z.of_nat (String.length (decimal (10 ^ 40))) /\
  Z.of_nat (String.length (decimal (-42))) < 40 /\
  _clog_append_int quiet_world
    {| scratch := "line "; heap := EmptyString |} PScratch PScratch (10 ^ 40) 4096
  = Ret ({| scratch := "line "; heap := EmptyString |}, PScratch, 4096) /\
  _clog_append_int quiet_world
    {| scratch := "line "; heap := EmptyString |} PScratch PScratch (-42) 4096
  = _clog_append_str quiet_world
      {| scratch := "line "; heap := EmptyString |} PScratch PScratch "-42" 4096.
Proof.
  assert (H1 : 40 <= Z.of_nat (String.length (decimal (10 ^ 40))))
    by (vm_compute; discriminate).
  assert (H2 : Z.of_nat (String.length (decimal (-42))) < 40)
    by (vm_compute; reflexivity).
  split; [exact H1|]. split; [exact H2|]. split.
  - exact (proj1 (wide_integer_skipped quiet_world
             {| scratch := "line "; heap := EmptyString |}
             PScratch PScratch (10 ^ 40) 4096) H1).
  - exact (proj1 (proj2 (wide_integer_skipped quiet_world
             {| scratch := "line "; heap := EmptyString |}
             PScratch PScratch (-42) 4096) H2)).
Defined.

(** ** The expander as a whole *)

Section Expander.

Variable b : build.
Variable w : world.
Variable logger : clog.
Variable x : context.

Lemma substitute_spec (c : ascii) (m : memory) (p : ptr) (cap : Z) :
  substitute b w logger x c (m, p, cap) =
  match substitution b w logger x c with
  | Some src => _clog_append_str w m p PScratch src cap
  | None => Ret (m, p, cap)
  end.
Proof.
  unfold substitute, substitution, _clog_append_time, _clog_append_int.
  repeat match goal with
         | |- context [if ?t then _ else _] => destruct t
         | |- context [let '(_, _) := ?t in _] => destruct t
         end; reflexivity.
Qed.

(** Every template is expanded to the text it denotes, provided the buffer
    can take that text. *)
Lemma format_loop_renders (C : Z) (t : string) :
  forall (st : scan_state) (r : buffer) (s : string),
    nul_free t ->
    holds C r s ->
    fits w C (Z.of_nat (String.length (s ++ rendering b w logger x t st))) ->
    exists st' r',
      format_loop b w logger x t st r = Ret (st', r') /\
      holds C r' (s ++ rendering b w logger x t st).
Proof.
  induction t as [|c t IH]; intros st [[m p] cap] s Hnf Hh Hfit.
  - simpl. rewrite append_empty_r. eauto.
  - unfold nul_free in Hnf. simpl in Hnf.
    destruct (c =? NUL)%char eqn:Hc; [discriminate|].
    injection Hnf as Hnf.
    cbn [format_loop rendering] in *.
    destruct st; cbn [format_step].
    + destruct (c =? "%")%char eqn:Hp.
      * cbn [bind]. now apply IH.
      * pose proof (c_str_single c Hc) as Hsingle.
        rewrite length_append in Hfit. cbn [String.length] in Hfit.
        destruct (append_str_holds w C m p cap s
                    (String c (String NUL EmptyString)) Hh)
          as (m' & p' & k & Hrun & Hh' & _).
        { apply (fits_less _ _ _ _ Hfit). unfold strlen.
          rewrite Hsingle. simpl String.length. lia. }
        rewrite Hrun. cbn [bind]. rewrite Hsingle in Hh'.
        destruct (IH NORMAL _ _ Hnf Hh') as (st' & r' & Hr' & Hh'').
        { apply (fits_less _ _ _ _ Hfit).
          rewrite !length_append. simpl String.length. lia. }
        exists st', r'. split; [exact Hr'|].
        rewrite append_assoc in Hh''. exact Hh''.
    + rewrite substitute_spec.
      destruct (substitution b w logger x c) as [src|].
      * rewrite !length_append in Hfit.
        destruct (append_str_holds w C m p cap s src Hh)
          as (m' & p' & k & Hrun & Hh' & _).
        { apply (fits_less _ _ _ _ Hfit). unfold strlen. lia. }
        rewrite Hrun. cbn [bind].
        destruct (IH NORMAL _ _ Hnf Hh') as (st' & r' & Hr' & Hh'').
        { apply (fits_less _ _ _ _ Hfit). rewrite !length_append. lia. }
        exists st', r'. split; [exact Hr'|].
        rewrite append_assoc in Hh''. exact Hh''.
      * cbn [bind]. simpl append in *. now apply IH.
Qed.

End Expander.

(** [_clog_format] returns, with the text its template denotes, whenever the
    buffer can take that text. *)
Lemma clog_format_total (b : build) (w : world) (logger : clog) (C : Z) (x : context) :
  fits w C (Z.of_nat (String.length
              (rendering b w logger (based b x) (c_str (fmt logger)) NORMAL))) ->
  exists r,
    _clog_format b w logger C x = Ret r /\
    holds C r (rendering b w logger (based b x) (c_str (fmt logger)) NORMAL).
Proof.
  intros Hfit.
  assert (HC : 0 < C) by (destruct Hfit; assumption).
  unfold _clog_format. cbn [store bind heap scratch].
  destruct (format_loop_renders b w logger (based b x) C (c_str (fmt logger))
              NORMAL (fresh C) EmptyString (c_str_nul_free _) (holds_fresh C HC) Hfit)
    as (st' & r' & Hrun & Hh).
  unfold fresh in Hrun. rewrite Hrun. cbn [bind]. eauto.
Qed.

(** ** The returned pointer *)

Section NonNull.

Variable b : build.
Variable w : world.

Lemma append_str_nonnull (m : memory) (p o : ptr) (src : string) (cap : Z)
    (m' : memory) (p' : ptr) (cap' : Z) :
  _clog_append_str w m p o src cap = Ret (m', p', cap') -> p' <> PNull.
Proof.
  unfold _clog_append_str. intros H.
  destruct (load m p); [|discriminate]. cbn [bind] in H.
  destruct (grow_size _ _); [|discriminate].
  match type of H with
  | bind ?c _ = _ => destruct c as [[m1 p1]|] eqn:E
  end; [|discriminate].
  cbn [bind] in H. unfold strcat in H.
  destruct p1; cbn [load bind store] in H; [discriminate| |];
    injection H as _ <- _; discriminate.
Qed.

Lemma append_int_nonnull (m : memory) (p o : ptr) (d cap : Z)
    (m' : memory) (p' : ptr) (cap' : Z) :
  p <> PNull ->
  _clog_append_int w m p o d cap = Ret (m', p', cap') -> p' <> PNull.
Proof.
  unfold _clog_append_int. intros Hp.
  destruct (snprintf_ld 40 d) as [n buf].
  destruct (40 <=? n).
  - now intros [= _ <- _].
  - apply append_str_nonnull.
Qed.

Lemma append_time_nonnull (m : memory) (p o : ptr) (pattern : string) (cap : Z)
    (m' : memory) (p' : ptr) (cap' : Z) :
  p <> PNull ->
  _clog_append_time w m p o pattern cap = Ret (m', p', cap') -> p' <> PNull.
Proof.
  unfold _clog_append_time. intros Hp.
  destruct (strftime w CLOG_DATETIME_LENGTH pattern) as [n buf].
  destruct (0 <? n).
  - apply append_str_nonnull.
  - now intros [= _ <- _].
Qed.

Variable logger : clog.
Variable x : context.

Lemma format_step_nonnull (st st' : scan_state) (c : ascii)
    (m : memory) (p : ptr) (cap : Z) (m' : memory) (p' : ptr) (cap' : Z) :
  p <> PNull ->
  format_step b w logger x st (m, p, cap) c = Ret (st', (m', p', cap')) ->
  p' <> PNull.
Proof.
  intros Hp. unfold format_step. destruct st.
  - destruct (c =? "%")%char; [now intros [= _ _ <- _]|].
    destruct (_clog_append_str _ _ _ _ _ _) as [[[m1 p1] cap1]|] eqn:E;
      cbn [bind]; [|discriminate].
    intros [= _ <- <- <-]. exact (append_str_nonnull _ _ _ _ _ _ _ _ E).
  - rewrite substitute_spec.
    destruct (substitution b w logger x c) as [src|]; cbn [bind].
    + destruct (_clog_append_str _ _ _ _ _ _) as [[[m1 p1] cap1]|] eqn:E;
        cbn [bind]; [|discriminate].
      intros [= _ <- <- <-]. exact (append_str_nonnull _ _ _ _ _ _ _ _ E).
    + now intros [= _ _ <- _].
Qed.

Lemma format_loop_nonnull (t : string) :
  forall (st st' : scan_state) (m : memory) (p : ptr) (cap : Z)
         (m' : memory) (p' : ptr) (cap' : Z),
    p <> PNull ->
    format_loop b w logger x t st (m, p, cap) = Ret (st', (m', p', cap')) ->
    p' <> PNull.
Proof.
  induction t as [|c t IH]; intros st st' m p cap m' p' cap' Hp H; simpl in H.
  - now injection H as _ _ <- _.
  - destruct (format_step b w logger x st (m, p, cap) c)
      as [[st1 [[m1 p1] cap1]]|] eqn:E; cbn [bind] in H; [|discriminate].
    apply (IH _ _ _ _ _ _ _ _ (format_step_nonnull _ _ _ _ _ _ _ _ _ Hp E) H).
Qed.

End NonNull.

Lemma clog_format_nonnull (b : build) (w : world) (logger : clog) (C : Z)
    (x : context) (m : memory) (p : ptr) (cap : Z) :
  _clog_format b w logger C x = Ret (m, p, cap) -> p <> PNull.
Proof.
  unfold _clog_format. cbn [store bind]. intros H.
  match type of H with
  | bind ?c _ = _ => destruct c as [[st [[m1 p1] cap1]]|] eqn:E
  end; cbn [bind] in H; [|discriminate].
  injection H as -> -> ->.
  assert (Hs : PScratch <> PNull) by discriminate.
  exact (format_loop_nonnull _ _ _ _ _ _ _ _ _ _ _ _ _ Hs E).
Qed.

(** C10.  [_clog_format] never returns NULL: whatever the allocator does, a
    call that returns hands back the scratch pointer or a heap pointer, and
    with sufficient resources the call does return.  Hence [_clog_log]
    never takes its "Formatting failed (2)" branch: that diagnostic is never
    written, and a call that got past formatting the user message always
    produces a line. *)
Theorem format_result_never_null (b : build) (w : world) (logger : clog) :
  (forall (C : Z) (x : context) (m : memory) (p : ptr) (cap : Z),
      _clog_format b w logger C x = Ret (m, p, cap) ->
      p = PScratch \/ p = PHeap) /\
  (forall (C : Z) (x : context),
      fits w C (Z.of_nat (String.length
                  (rendering b w logger (based b x) (c_str (fmt logger)) NORMAL))) ->
      exists m p cap,
        _clog_format b w logger C x = Ret (m, p, cap) /\ p <> PNull) /\
  (forall (f g e : string) (n : Z) (lvl : clog_level) (call : printf_call)
          (rep : log_report),
      _clog_log b w logger f n g e lvl call = Ret rep ->
      ~ In FormattingFailed2 (errors rep) /\
      (user rep <> None -> line rep <> None)).
Proof.
  split; [|split].
  - intros C x m p cap H. apply clog_format_nonnull in H.
    destruct p; [contradiction | now left | now right].
  - intros C x Hfit.
    destruct (clog_format_total b w logger C x Hfit) as ([[m p] cap] & Hrun & _).
    exists m, p, cap. split; [exact Hrun|].
    now apply clog_format_nonnull in Hrun.
  - intros f g e n lvl call rep. unfold _clog_log.
    destruct (format_message w call) as [[u|]|]; cbn [bind]; [| |discriminate].
    + destruct (level_name lvl) as [name|]; cbn [bind]; [|discriminate].
      destruct (_clog_format _ _ _ _ _) as [[[m p] cap]|] eqn:E;
        cbn [bind]; [|discriminate].
      apply clog_format_nonnull in E.
      destruct p; [contradiction| |]; cbn [ptr_eqb load bind];
        destruct (active_sink b logger);
        intros [= <-]; cbn [errors user line];
        (split; [|discriminate]);
        match goal with
        | |- ~ In _ (if ?c then _ else _) => destruct c
        end;
        unfold _clog_err; destruct (CLOG_SILENT b); simpl;
        intuition discriminate.
    + intros [= <-]. cbn [errors user line]. split; [|congruence].
      unfold _clog_err. destruct (CLOG_SILENT b); simpl; intuition discriminate.
Qed.

(** Witness of [format_result_never_null]: one ERROR call through the
    default template. *)
Lemma format_result_never_null_witness :
  exists rep,
    _clog_log posix_build quiet_world (_clog_logger posix_build (fun _ => 0))
      "src/net.c" 42 "connect" "NET" LEVEL_ERROR
      {| rendered := "connection lost"; fetches := false |} = Ret rep /\
    line rep = Some (PScratch, "E: NET: net.c(42): connect: connection lost" ++ endl) /\
    ~ In FormattingFailed2 (errors rep) /\
    (user rep <> None -> line rep <> None).
Proof.
  eexists. split; [vm_compute; reflexivity|]. split; [reflexivity|].
  apply (proj2 (proj2 (format_result_never_null posix_build quiet_world
                         (_clog_logger posix_build (fun _ => 0))))
           "src/net.c" "connect" "NET" 42 LEVEL_ERROR
           {| rendered := "connection lost"; fetches := false |}).
  vm_compute. reflexivity.
Defined.

(** ** Sink configuration *)

(** What [clog_init_file] does with file support compiled in: it returns 1
    whether [open] failed or succeeded.  On failure the logger is left as
    it was.  On success the console function pointer is NULL and the
    descriptor is stored, so the console is no longer a sink; the descriptor
    is the active sink when it is not 0. *)
Theorem init_file_returns_one (b : build) (w : world) (logger : clog) (path : string) :
  CLOG_FILE_SUPPORT b = true ->
  fst (fst (clog_init_file b w logger path)) = 1 /\
  (open_result w path = -1 ->
   snd (fst (clog_init_file b w logger path)) = logger) /\
  (open_result w path <> -1 ->
   fun_ (snd (fst (clog_init_file b w logger path))) = None /\
   fd (snd (fst (clog_init_file b w logger path))) = open_result w path /\
   (forall f, active_sink b (snd (fst (clog_init_file b w logger path)))
              <> ConsoleSink f) /\
   (open_result w path <> 0 ->
    active_sink b (snd (fst (clog_init_file b w logger path)))
    = FileSink (open_result w path))).
Proof.
  intros Hfs. unfold clog_init_file. rewrite Hfs.
  destruct (open_result w path =? -1) eqn:E; cbn [fst snd].
  - apply Z.eqb_eq in E. split; [reflexivity|]. split; [reflexivity|].
    intros H. contradiction.
  - apply Z.eqb_neq in E. split; [reflexivity|]. split; [intros H; contradiction|].
    intros _. unfold active_sink, set_sink. cbn [fd fun_]. rewrite Hfs.
    repeat split.
    + intros f. destruct (open_result w path =? 0); simpl; discriminate.
    + intros H0. apply Z.eqb_neq in H0. now rewrite H0.
Qed.

(** Witness of [init_file_returns_one]: [open] fails, and [open] returns
    descriptor 3. *)
Lemma init_file_returns_one_witness :
  CLOG_FILE_SUPPORT file_build = true /\
  open_result (opening (-1)) "log.txt" = -1 /\
  open_result (opening 3) "log.txt" <> -1 /\
  open_result (opening 3) "log.txt" <> 0 /\
  fst (fst (clog_init_file file_build (opening (-1))
              (_clog_logger file_build (fun _ => 0)) "log.txt")) = 1 /\
  fst (fst (clog_init_file file_build (opening 3)
              (_clog_logger file_build (fun _ => 0)) "log.txt")) = 1 /\
  active_sink file_build
    (snd (fst (clog_init_file file_build (opening 3)
                 (_clog_logger file_build (fun _ => 0)) "log.txt")))
  = FileSink 3.
Proof.
  assert (H3 : open_result (opening 3) "log.txt" <> -1) by discriminate.
  assert (H0 : open_result (opening 3) "log.txt" <> 0) by discriminate.
  split; [reflexivity|]. split; [reflexivity|].
  split; [exact H3|]. split; [exact H0|]. split; [|split].
  - exact (proj1 (init_file_returns_one file_build (opening (-1))
                    (_clog_logger file_build (fun _ => 0)) "log.txt" eq_refl)).
  - exact (proj1 (init_file_returns_one file_build (opening 3)
                    (_clog_logger file_build (fun _ => 0)) "log.txt" eq_refl)).
  - exact (proj2 (proj2 (proj2 (proj2 (proj2
             (init_file_returns_one file_build (opening 3)
                (_clog_logger file_build (fun _ => 0)) "log.txt" eq_refl)) H3))) H0).
Defined.

(** C9 at its failing input: [open] succeeds with descriptor 0.  The call
    returns 1 and clears the console function as for any other descriptor,
    but 0 is also the header's mark for "no file": no sink is active,
    [_clog_log] delivers nothing, and [clog_close_file] never closes the
    descriptor. *)
Lemma init_file_descriptor_zero :
  open_result (opening 0) "log.txt" <> -1 /\
  clog_init_file file_build (opening 0)
    (_clog_logger file_build (fun _ => 0)) "log.txt"
  = (1, set_sink (_clog_logger file_build (fun _ => 0)) 0 None, []%list) /\
  active_sink file_build
    (snd (fst (clog_init_file file_build (opening 0)
                 (_clog_logger file_build (fun _ => 0)) "log.txt")))
  = NoSink /\
  clog_close_file file_build
    (snd (fst (clog_init_file file_build (opening 0)
                 (_clog_logger file_build (fun _ => 0)) "log.txt")))
  = None /\
  exists rep,
    _clog_log file_build (opening 0)
      (snd (fst (clog_init_file file_build (opening 0)
                   (_clog_logger file_build (fun _ => 0)) "log.txt")))
      "src/net.c" 42 "connect" "NET" LEVEL_ERROR
      {| rendered := "connection lost"; fetches := false |} = Ret rep /\
    sent rep = None.
Proof.
  split; [discriminate|]. split; [reflexivity|]. split; [reflexivity|].
  split; [reflexivity|].
  eexists. split; [vm_compute; reflexivity | reflexivity].
Qed.

(** ** The user message *)

Section UserMessage.

Variable w : world.
Variable call : printf_call.

Lemma to_int_small (z : Z) : - 2 ^ 31 <= z < 2 ^ 31 -> to_int z = z.
Proof. intros H. unfold to_int. rewrite Z.mod_small; lia. Qed.

(** Above the [int] range, up to [2^32 + 2^31 - 1], the conversion
    subtracts [2^32]. *)
Lemma to_int_cut (z : Z) :
  2 ^ 31 <= z < 2 ^ 32 + 2 ^ 31 -> to_int z = z - 2 ^ 32.
Proof.
  intros H. unfold to_int.
  replace (z + 2 ^ 31) with (z - 2 ^ 31 + 1 * 2 ^ 32) by ring.
  rewrite Z.mod_add by lia. rewrite Z.mod_small; lia.
Qed.


(** A message of 4096 bytes or more whose formatting fetches no variadic
    argument is measured in the stack array and formatted a second time
    into a heap block of exactly its length plus one. *)
Lemma long_message_without_arguments :
  4096 <= strlen (rendered call) < INT_MAX ->
  fetches call = false ->
  alloc_ok w (strlen (rendered call) + 1) = true ->
  format_message w call =
  Ret (Some {| dynbuf := PHeap; dyn_size := strlen (rendered call) + 1;
               dyn_text := c_str (rendered call);
               dyn_result := strlen (rendered call); passes := 2 |}).
Proof.
  unfold strlen, INT_MAX. intros H Hf Ha. unfold format_message, vsnprintf.
  cbn [ptr_eqb andb].
  rewrite Hf.
  destruct (INT_MAX <? _) eqn:E; [apply Z.ltb_lt in E; unfold INT_MAX in E; lia|].
  cbn [bind]. rewrite (to_size_small (Z.of_nat _)) by (unfold SIZE_MAX1; lia).
  destruct (4096 <=? _) eqn:E2; [|apply Z.leb_gt in E2; lia].
  rewrite to_int_small by lia.
  rewrite to_size_small by (unfold SIZE_MAX1; lia).
  unfold malloc. rewrite Ha. cbn [ptr_eqb andb bind].
  rewrite (to_size_small (Z.of_nat _)) by (unfold SIZE_MAX1; lia).
  destruct (_ + 1 <=? _) eqn:E3; [apply Z.leb_le in E3; lia|].
  rewrite take_all by lia.
  reflexivity.
Qed.

(** A message of 4096 bytes or more whose formatting fetches an argument:
    the second [vsnprintf] reads the [va_list] the first one consumed. *)
Lemma long_message_with_arguments :
  4096 <= strlen (rendered call) <= INT_MAX ->
  fetches call = true ->
  format_message w call = Stuck StaleVaList.
Proof.
  unfold strlen, INT_MAX. intros H Hf. unfold format_message, vsnprintf.
  cbn [ptr_eqb andb].
  rewrite Hf.
  destruct (INT_MAX <? _) eqn:E; [apply Z.ltb_lt in E; unfold INT_MAX in E; lia|].
  cbn [bind]. rewrite (to_size_small (Z.of_nat _)) by (unfold SIZE_MAX1; lia).
  destruct (4096 <=? _) eqn:E2; [|apply Z.leb_gt in E2; lia].
  reflexivity.
Qed.

End UserMessage.

(** C3 at its failing input: the call [LOG_E(NET, "%s", s)] with [s] a
    string of 4096 bytes.  The message needs the heap path, and the second
    [vsnprintf] is handed the argument list the first pass already
    consumed, so instead of producing the full message in a block of 4097
    bytes the call has undefined behaviour. *)
Theorem long_message_with_argument_undefined
    (b : build) (w : world) (logger : clog) (f g e : string) (n : Z)
    (lvl : clog_level) :
  strlen (replicate 4096 "x") = 4096 /\
  _clog_log b w logger f n g e lvl
    {| rendered := replicate 4096 "x"; fetches := true |}
  = Stuck StaleVaList.
Proof.
  assert (H : strlen (replicate 4096 "x") = 4096) by (vm_compute; reflexivity).
  split; [exact H|].
  unfold _clog_log. rewrite long_message_with_arguments.
  - reflexivity.
  - cbn [rendered]. rewrite H. unfold INT_MAX. lia.
  - reflexivity.
Qed.

(** Scenario C for a message that needs no argument: 10,000 bytes go through
    the heap path, in a block of 10,001 bytes, and the finished line is
    delivered whole from a buffer that grew out of its scratch region. *)
Example scenario_long_literal_message :
  exists rep,
    _clog_log posix_build quiet_world
      (with_fmt (_clog_logger posix_build (fun _ => 0)) ("%l: %e: %m" ++ endl))
      "src/net.c" 42 "connect" "NET" LEVEL_ERROR
      {| rendered := replicate (Z.to_nat 10000) "x"; fetches := false |} = Ret rep /\
    user rep = Some {| dynbuf := PHeap; dyn_size := 10001;
                       dyn_text := replicate (Z.to_nat 10000) "x";
                       dyn_result := 10000; passes := 2 |} /\
    line rep = Some (PHeap, "E: NET: " ++ replicate (Z.to_nat 10000) "x" ++ endl) /\
    errors rep = []%list /\
    freed_line rep = true /\ freed_message rep = true.
Proof.
  eexists. split; [vm_compute; reflexivity|].
  repeat split; vm_compute; reflexivity.
Qed.

(** Outside [fits]: with capacity 0 the doubling loop of [_clog_append_str]
    never exits. *)
Example zero_capacity_hangs (w : world) (m : memory) (src : string) :
  _clog_append_str w m PScratch PScratch src 0 = Stuck Hang.
Proof.
  unfold _clog_append_str. cbn [load bind].
  assert (H : grow_size (to_size (strlen (scratch m) + strlen src)) 0 = None).
  { apply grow_zero. unfold to_size, SIZE_MAX1.
    apply Z.mod_pos_bound. lia. }
  now rewrite H.
Qed.

(* ================================================================= *)
(** * Further properties of the header *)

(** ** Text of a returned buffer *)

Section ReturnedText.

Variable b : build.
Variable w : world.

Lemma load_store (m m' : memory) (p : ptr) (v : string) :
  store m p v = Ret m' -> load m' p = Ret v.
Proof. destruct p; simpl; intros [= <-]; reflexivity. Qed.

Lemma strcat_text (m m' : memory) (p : ptr) (s src : string) :
  load m p = Ret s -> nul_free s ->
  strcat m p src = Ret m' -> load m' p = Ret (s ++ c_str src).
Proof.
  intros Hl Hnf. unfold strcat. rewrite Hl. cbn [bind]. rewrite Hnf.
  apply load_store.
Qed.

(** Whenever an append returns, the new pointer designates the old text
    followed by the C string of [src]. *)
Lemma append_str_text (m : memory) (p o : ptr) (src : string) (cap : Z)
    (m' : memory) (p' : ptr) (cap' : Z) (s : string) :
  _clog_append_str w m p o src cap = Ret (m', p', cap') ->
  load m p = Ret s -> nul_free s ->
  load m' p' = Ret (s ++ c_str src).
Proof.
  unfold _clog_append_str. intros H Hl Hnf. rewrite Hl in H. cbn [bind] in H.
  destruct (grow_size _ _) as [new|]; [|discriminate].
  destruct (new =? cap).
  - cbn [bind] in H.
    destruct (strcat m p src) as [m2|] eqn:E; [|discriminate].
    injection H as <- <- _. exact (strcat_text _ _ _ _ _ Hl Hnf E).
  - destruct (ptr_eqb p o) eqn:Hpo.
    + assert (p = o) by (destruct p, o; simpl in Hpo; congruence). subst o.
      unfold malloc, strcpy in H. rewrite Hl in H. cbn [bind] in H. rewrite Hnf in H.
      destruct (alloc_ok w new); cbn [store bind] in H; [|discriminate].
      unfold strcat in H. cbn [load bind heap store] in H. rewrite Hnf in H.
      injection H as <- <- _. reflexivity.
    + destruct p; cbn [realloc bind] in H; try discriminate.
      destruct (alloc_ok w new).
      * destruct (strcat m PHeap src) as [m2|] eqn:E; [|discriminate].
        injection H as <- <- _. exact (strcat_text _ _ _ _ _ Hl Hnf E).
      * unfold strcat in H. cbn [load bind] in H. discriminate.
Qed.

Variable logger : clog.
Variable x : context.

(** Whenever the scanner returns, the buffer text is the old text followed
    by what the template denotes. *)
Lemma format_loop_text (t : string) :
  forall (st st' : scan_state) (m : memory) (p : ptr) (cap : Z)
         (m' : memory) (p' : ptr) (cap' : Z) (s : string),
    nul_free t ->
    format_loop b w logger x t st (m, p, cap) = Ret (st', (m', p', cap')) ->
    load m p = Ret s -> nul_free s ->
    load m' p' = Ret (s ++ rendering b w logger x t st).
Proof.
  induction t as [|c t IH]; intros st st' m p cap m' p' cap' s Hnf H Hl Hs.
  - simpl in *. injection H as _ <- <- _. now rewrite append_empty_r.
  - unfold nul_free in Hnf. simpl in Hnf.
    destruct (c =? NUL)%char eqn:Hc; [discriminate|]. injection Hnf as Hnf.
    cbn [format_loop rendering] in *.
    destruct st; cbn [format_step] in H.
    + destruct (c =? "%")%char.
      * cbn [bind] in H. exact (IH _ _ _ _ _ _ _ _ _ Hnf H Hl Hs).
      * destruct (_clog_append_str _ _ _ _ _ _) as [[[m1 p1] cap1]|] eqn:E;
          cbn [bind] in H; [|discriminate].
        pose proof (append_str_text _ _ _ _ _ _ _ _ _ E Hl Hs) as Hl1.
        rewrite (c_str_single c Hc) in Hl1.
        assert (Hs1 : nul_free (s ++ String c EmptyString)).
        { apply nul_free_append; [exact Hs|]. unfold nul_free. simpl. now rewrite Hc. }
        rewrite (IH _ _ _ _ _ _ _ _ _ Hnf H Hl1 Hs1), append_assoc. reflexivity.
    + rewrite substitute_spec in H.
      destruct (substitution b w logger x c) as [src|]; cbn [bind] in H.
      * destruct (_clog_append_str _ _ _ _ _ _) as [[[m1 p1] cap1]|] eqn:E;
          cbn [bind] in H; [|discriminate].
        pose proof (append_str_text _ _ _ _ _ _ _ _ _ E Hl Hs) as Hl1.
        assert (Hs1 : nul_free (s ++ c_str src))
          by (apply nul_free_append; [exact Hs | apply c_str_nul_free]).
        rewrite (IH _ _ _ _ _ _ _ _ _ Hnf H Hl1 Hs1), append_assoc. reflexivity.
      * simpl append. exact (IH _ _ _ _ _ _ _ _ _ Hnf H Hl Hs).
Qed.

Lemma rendering_app (t1 t2 : string) :
  forall st,
    rendering b w logger x (t1 ++ t2) st
    = rendering b w logger x t1 st ++ rendering b w logger x t2 (scan st t1).
Proof.
  induction t1 as [|c t1 IH]; intros st; simpl; [reflexivity|].
  destruct st.
  - destruct (c =? "%")%char; [apply IH | now rewrite IH].
  - now rewrite IH, append_assoc.
Qed.

Lemma rendering_with_fmt (T t : string) :
  forall st,
    rendering b w (with_fmt logger T) x t st = rendering b w logger x t st.
Proof.
  induction t as [|c t IH]; intros st; simpl; [reflexivity|].
  destruct st; rewrite ?IH; reflexivity.
Qed.

End ReturnedText.

(** Whenever an expansion returns, its text is what the template denotes. *)
Lemma expansion_text (b : build) (w : world) (logger : clog) (C : Z)
    (x : context) (a : string) :
  expansion b w logger C x = Ret a ->
  a = rendering b w logger (based b x) (c_str (fmt logger)) NORMAL.
Proof.
  unfold expansion, _clog_format. cbn [store bind heap scratch]. intros H.
  destruct (format_loop _ _ _ _ _ _ _) as [[st [[m p] cap]]|] eqn:E;
    cbn [bind text_of] in H; [|discriminate].
  pose proof (format_loop_text b w logger (based b x) _ _ _ _ _ _ _ _ _
                EmptyString (c_str_nul_free _) E eq_refl eq_refl) as Hl.
  simpl append in Hl. congruence.
Qed.

Lemma expansion_total (b : build) (w : world) (logger : clog) (C : Z) (x : context) :
  fits w C (Z.of_nat (String.length
              (rendering b w logger (based b x) (c_str (fmt logger)) NORMAL))) ->
  expansion b w logger C x
  = Ret (rendering b w logger (based b x) (c_str (fmt logger)) NORMAL).
Proof.
  intros Hfit. unfold expansion.
  destruct (clog_format_total b w logger C x Hfit) as ([[m p] cap] & Hrun & Hh).
  rewrite Hrun. cbn [bind text_of]. now destruct Hh.
Qed.

(** X1.  Templates compose: when [T] is free of NUL and leaves the scanner
    in literal state, the expansion of [T] followed by [U] is the expansion
    of [T] followed by the expansion of [U] (for a buffer that can take the
    whole text). *)
Theorem expansion_concat (b : build) (w : world) (logger : clog) (C : Z)
    (x : context) (T U a c : string) :
  nul_free T ->
  scan NORMAL T = NORMAL ->
  expansion b w (with_fmt logger T) C x = Ret a ->
  expansion b w (with_fmt logger U) C x = Ret c ->
  fits w C (Z.of_nat (String.length a) + Z.of_nat (String.length c)) ->
  expansion b w (with_fmt logger (T ++ U)) C x = Ret (a ++ c).
Proof.
  intros HT Hscan Ha Hc Hfit.
  apply expansion_text in Ha. apply expansion_text in Hc.
  cbn [fmt with_fmt] in Ha, Hc. rewrite rendering_with_fmt in Ha, Hc.
  rewrite HT in Ha.
  assert (E : rendering b w (with_fmt logger (T ++ U)) (based b x)
                (c_str (fmt (with_fmt logger (T ++ U)))) NORMAL = a ++ c).
  { cbn [fmt with_fmt]. rewrite rendering_with_fmt, (c_str_append _ _ HT).
    rewrite rendering_app, Hscan. congruence. }
  rewrite <- E. apply expansion_total. rewrite E, length_append, Nat2Z.inj_add.
  exact Hfit.
Qed.

(** Witness of [expansion_concat]: ["[%e] "] followed by ["%m!"]. *)
Lemma expansion_concat_witness :
  nul_free "[%e] " /\ scan NORMAL "[%e] " = NORMAL /\
  expansion posix_build quiet_world
    (with_fmt (_clog_logger posix_build (fun _ => 0)) ("[%e] " ++ "%m!")) 8
    {| sfile := "main.c"; sline := 7; sfunction := "main"; smodule := "NET";
       level := "E"; message := "link down" |}
  = Ret ("[NET] " ++ "link down!").
Proof.
  split; [reflexivity|]. split; [reflexivity|].
  apply expansion_concat; try reflexivity.
  split; [lia|]. exists 2%nat. split.
  - vm_compute. split; reflexivity.
  - intros n _. reflexivity.
Defined.

(** ** Values of the directives *)

Section Directives.

Variable b : build.
Variable w : world.
Variable logger : clog.
Variable x : context.

Lemma rendering_single (y : context) (c : ascii) :
  rendering b w logger y (String "%" (String c EmptyString)) NORMAL
  = match substitution b w logger y c with
    | Some src => c_str src
    | None => EmptyString
    end.
Proof. simpl. now rewrite append_empty_r. Qed.

(** A template made of one directive expands to the C string the [switch]
    hands to the buffer, or to nothing. *)
Lemma single_directive (C : Z) (c : ascii) (v : string) :
  (c =? NUL)%char = false ->
  substitution b w logger (based b x) c = Some v ->
  fits w C (strlen v) ->
  expansion b w (with_fmt logger (String "%" (String c EmptyString))) C x
  = Ret (c_str v).
Proof.
  intros Hc Hv Hfit.
  assert (E : rendering b w (with_fmt logger (String "%" (String c EmptyString)))
                (based b x)
                (c_str (fmt (with_fmt logger (String "%" (String c EmptyString)))))
                NORMAL = c_str v).
  { cbn [fmt with_fmt]. rewrite rendering_with_fmt.
    cbn [c_str]. rewrite Hc. cbn [Ascii.eqb Bool.eqb NUL].
    now rewrite rendering_single, Hv. }
  rewrite expansion_total; [now rewrite E|]. rewrite E. exact Hfit.
Qed.

Lemma single_directive_none (C : Z) (c : ascii) :
  (c =? NUL)%char = false ->
  substitution b w logger (based b x) c = None ->
  0 < C < SIZE_MAX1 ->
  expansion b w (with_fmt logger (String "%" (String c EmptyString))) C x
  = Ret EmptyString.
Proof.
  intros Hc Hv HC.
  assert (E : rendering b w (with_fmt logger (String "%" (String c EmptyString)))
                (based b x)
                (c_str (fmt (with_fmt logger (String "%" (String c EmptyString)))))
                NORMAL = EmptyString).
  { cbn [fmt with_fmt]. rewrite rendering_with_fmt.
    cbn [c_str]. rewrite Hc. cbn [Ascii.eqb Bool.eqb NUL].
    now rewrite rendering_single, Hv. }
  rewrite expansion_total; [now rewrite E|]. rewrite E.
  apply fits_scratch; simpl; lia.
Qed.

End Directives.

(** X2.  Each of the directives [%%], [%l], [%e], [%g] and [%m], alone in a
    template, expands to a percent sign, the level label, the module name,
    the function name and the user message respectively, exactly and in
    full, whatever their length (for a buffer that can take the value). *)
Theorem directive_values (b : build) (w : world) (logger : clog) (C : Z)
    (x : context) (c : ascii) (v : string) :
  In (c, v) [("%"%char, "%"); ("l"%char, level x); ("e"%char, smodule x);
             ("g"%char, sfunction x); ("m"%char, message x)]%list ->
  fits w C (strlen v) ->
  expansion b w (with_fmt logger (String "%" (String c EmptyString))) C x
  = Ret (c_str v).
Proof.
  intros Hin Hfit. simpl in Hin.
  destruct Hin as [H|[H|[H|[H|[H|[]]]]]]; injection H as <- <-;
    (apply single_directive; [reflexivity | | exact Hfit]);
    unfold substitution; destruct (CLOG_TIME_SUPPORT b); reflexivity.
Qed.

(** Witness of [directive_values]: [%m] with a message longer than the
    scratch region. *)
Lemma directive_values_witness :
  fits quiet_world 4 (strlen "link down") /\
  expansion posix_build quiet_world
    (with_fmt (_clog_logger posix_build (fun _ => 0)) "%m") 4
    {| sfile := "main.c"; sline := 7; sfunction := "main"; smodule := "NET";
       level := "E"; message := "link down" |}
  = Ret "link down".
Proof.
  assert (H : fits quiet_world 4 (strlen "link down")).
  { split; [lia|]. exists 2%nat. split.
    - vm_compute. split; reflexivity.
    - intros n _. reflexivity. }
  split; [exact H|].
  apply (directive_values posix_build quiet_world
           (_clog_logger posix_build (fun _ => 0)) 4
           {| sfile := "main.c"; sline := 7; sfunction := "main"; smodule := "NET";
              level := "E"; message := "link down" |} "m" "link down").
  - simpl. tauto.
  - exact H.
Defined.

(** ** Line numbers *)

Section Digits.

Lemma double_digits (d : Decimal.uint) :
  (Decimal.nb_digits (Decimal.Little.double d) <= S (Decimal.nb_digits d))%nat /\
  (Decimal.nb_digits (Decimal.Little.succ_double d) <= S (Decimal.nb_digits d))%nat.
Proof. induction d; simpl; lia. Qed.

Lemma little_digits (p : positive) :
  (Decimal.nb_digits (Pos.to_little_uint p) <= Pos.size_nat p)%nat.
Proof.
  induction p as [p IH | p IH |]; simpl.
  - pose proof (proj2 (double_digits (Pos.to_little_uint p))). lia.
  - pose proof (proj1 (double_digits (Pos.to_little_uint p))). lia.
  - lia.
Qed.

Lemma size_nat_bound (p : positive) :
  2 ^ Z.of_nat (Pos.size_nat p) <= 2 * Z.pos p.
Proof.
  induction p as [p IH | p IH |]; cbn [Pos.size_nat].
  - rewrite pow2_succ. lia.
  - rewrite pow2_succ. lia.
  - simpl. lia.
Qed.

Lemma length_string_of_uint (u : Decimal.uint) :
  String.length (NilEmpty.string_of_uint u) = Decimal.nb_digits u.
Proof. induction u; simpl; congruence. Qed.

Lemma length_to_uint (p : positive) :
  Z.pos p <= 2 ^ 31 ->
  (String.length (NilZero.string_of_uint (Pos.to_uint p)) <= 32)%nat.
Proof.
  intros Hp. unfold NilZero.string_of_uint.
  assert (H : (Decimal.nb_digits (Pos.to_uint p) <= 32)%nat).
  { unfold Pos.to_uint. rewrite DecimalFacts.nb_digits_rev.
    pose proof (little_digits p) as H1.
    pose proof (size_nat_bound p) as H2.
    assert (2 ^ Z.of_nat (Pos.size_nat p) < 2 ^ Z.of_nat 33) as H3.
    { change (2 ^ Z.of_nat 33) with (2 * 2 ^ 32). lia. }
    apply pow2_lt_inv in H3. lia. }
  destruct (Pos.to_uint p); try (rewrite length_string_of_uint; exact H).
  simpl. lia.
Qed.

(** The decimal text of an [int] has at most 33 characters. *)
Lemma int_decimal_short (d : Z) :
  - 2 ^ 31 <= d < 2 ^ 31 -> Z.of_nat (String.length (decimal d)) < 40.
Proof.
  intros H. unfold decimal. destruct d as [|p|p]; simpl.
  - lia.
  - pose proof (length_to_uint p). lia.
  - pose proof (length_to_uint p). lia.
Qed.

End Digits.

(** X3.  [%n] always renders the line number: for every [int] value of
    [sline] the bound of 40 characters of [_clog_append_int] is not reached,
    and the directive expands to the decimal text of the line number. *)
Theorem line_number_always_rendered (b : build) (w : world) (logger : clog)
    (C : Z) (x : context) :
  - 2 ^ 31 <= sline x < 2 ^ 31 ->
  fits w C (Z.of_nat (String.length (decimal (sline x)))) ->
  expansion b w (with_fmt logger "%n") C x = Ret (decimal (sline x)).
Proof.
  intros Hint Hfit.
  pose proof (int_decimal_short _ Hint) as Hshort.
  pose proof (nul_free_decimal (sline x)) as Hnf.
  unfold nul_free in Hnf.
  transitivity (Ret (A := string) (c_str (decimal (sline x))));
    [|now rewrite Hnf].
  apply single_directive; [reflexivity | |].
  - pose proof (snprintf_ld_fits _ Hshort) as Hbuf.
    apply Z.leb_gt in Hshort.
    unfold substitution, snprintf_ld in *. cbn [snd] in Hbuf.
    destruct (CLOG_TIME_SUPPORT b);
      cbn [andb Ascii.eqb Bool.eqb sline based]; now rewrite Hshort, Hbuf.
  - unfold strlen. rewrite Hnf. exact Hfit.
Qed.

(** Witness of [line_number_always_rendered]: line [-2147483648]. *)
Lemma line_number_always_rendered_witness :
  - 2 ^ 31 <= - 2147483648 < 2 ^ 31 /\
  expansion posix_build quiet_world
    (with_fmt (_clog_logger posix_build (fun _ => 0)) "%n") 4096
    {| sfile := "main.c"; sline := - 2147483648; sfunction := "main";
       smodule := "NET"; level := "E"; message := "m" |}
  = Ret "-2147483648".
Proof.
  assert (H : - 2 ^ 31 <= - 2147483648 < 2 ^ 31) by lia.
  split; [exact H|].
  apply (line_number_always_rendered posix_build quiet_world
           (_clog_logger posix_build (fun _ => 0)) 4096
           {| sfile := "main.c"; sline := - 2147483648; sfunction := "main";
              smodule := "NET"; level := "E"; message := "m" |} H).
  apply fits_scratch; [unfold SIZE_MAX1; lia | vm_compute; reflexivity].
Defined.

(** ** Date and time directives *)

(** X4.  With time support compiled in, [%t] and [%d] expand to the text
    [strftime] produces for the logger's time and date pattern when that
    text has between 1 and 255 bytes, and to nothing when it is empty or
    does not fit the 256-byte buffer of [_clog_append_time]. *)
Theorem time_directive_bounded (b : build) (w : world) (logger : clog) (C : Z)
    (x : context) (c : ascii) (pattern : string) :
  CLOG_TIME_SUPPORT b = true ->
  In (c, pattern) [("t"%char, time_fmt logger); ("d"%char, date_fmt logger)]%list ->
  0 < C < SIZE_MAX1 ->
  (0 < strlen (strftime_text w (c_str pattern)) < 256 ->
   fits w C (strlen (strftime_text w (c_str pattern))) ->
   expansion b w (with_fmt logger (String "%" (String c EmptyString))) C x
   = Ret (c_str (strftime_text w (c_str pattern)))) /\
  (strlen (strftime_text w (c_str pattern)) = 0 \/
   256 <= strlen (strftime_text w (c_str pattern)) ->
   expansion b w (with_fmt logger (String "%" (String c EmptyString))) C x
   = Ret EmptyString).
Proof.
  intros Hts Hin HC. unfold strlen.
  set (text := c_str (strftime_text w (c_str pattern))).
  assert (Hsub : substitution b w logger (based b x) c =
                 if Z.of_nat (String.length text) + 1 <=? CLOG_DATETIME_LENGTH
                 then if 0 <? Z.of_nat (String.length text) then Some text else None
                 else None).
  { simpl in Hin. destruct Hin as [H|[H|[]]]; injection H as <- <-;
      unfold substitution, strftime; rewrite Hts; cbn [andb Ascii.eqb Bool.eqb];
      fold text; destruct (_ <=? CLOG_DATETIME_LENGTH); reflexivity. }
  assert (Hc : (c =? NUL)%char = false).
  { simpl in Hin. destruct Hin as [H|[H|[]]]; injection H as <- _; reflexivity. }
  unfold CLOG_DATETIME_LENGTH in Hsub.
  split.
  - intros Hlen Hfit.
    destruct (_ + 1 <=? 256) eqn:E1 in Hsub; [|apply Z.leb_gt in E1; lia].
    destruct (0 <? _) eqn:E2 in Hsub; [|apply Z.ltb_ge in E2; lia].
    assert (Hnf : c_str text = text) by apply c_str_nul_free.
    transitivity (Ret (A := string) (c_str text)); [|now rewrite Hnf].
    apply single_directive; try assumption.
    unfold strlen. now rewrite Hnf.
  - intros Hlen. apply single_directive_none; try assumption.
    rewrite Hsub. destruct Hlen as [Hlen|Hlen].
    + rewrite Hlen. reflexivity.
    + destruct (_ + 1 <=? 256) eqn:E1; [apply Z.leb_le in E1; lia | reflexivity].
Qed.

(** Witness of [time_directive_bounded]: a clock that prints ["12:00:00"],
    and one whose text has 300 bytes. *)
Lemma time_directive_bounded_witness :
  expansion
    {| CLOG_TIME_SUPPORT := true; CLOG_FILE_SUPPORT := false;
       CLOG_SILENT := false; _WIN32 := false |}
    (generous (fun _ => "12:00:00") 0)
    (with_fmt (_clog_logger posix_build (fun _ => 0)) "%t") 4096
    {| sfile := "main.c"; sline := 7; sfunction := "main"; smodule := "NET";
       level := "E"; message := "m" |} = Ret "12:00:00" /\
  expansion
    {| CLOG_TIME_SUPPORT := true; CLOG_FILE_SUPPORT := false;
       CLOG_SILENT := false; _WIN32 := false |}
    (generous (fun _ => replicate 300 "9") 0)
    (with_fmt (_clog_logger posix_build (fun _ => 0)) "%t") 4096
    {| sfile := "main.c"; sline := 7; sfunction := "main"; smodule := "NET";
       level := "E"; message := "m" |} = Ret EmptyString.
Proof.
  assert (HC : 0 < 4096 < SIZE_MAX1) by (unfold SIZE_MAX1; lia).
  split.
  - apply (proj1 (time_directive_bounded
             {| CLOG_TIME_SUPPORT := true; CLOG_FILE_SUPPORT := false;
                CLOG_SILENT := false; _WIN32 := false |}
             (generous (fun _ => "12:00:00") 0)
             (_clog_logger posix_build (fun _ => 0)) 4096
             {| sfile := "main.c"; sline := 7; sfunction := "main";
                smodule := "NET"; level := "E"; message := "m" |}
             "t" "%H:%M:%S" eq_refl (or_introl eq_refl) HC)).
    + vm_compute. split; reflexivity.
    + apply fits_scratch; [exact HC | vm_compute; reflexivity].
  - apply (proj2 (time_directive_bounded
             {| CLOG_TIME_SUPPORT := true; CLOG_FILE_SUPPORT := false;
                CLOG_SILENT := false; _WIN32 := false |}
             (generous (fun _ => replicate 300 "9") 0)
             (_clog_logger posix_build (fun _ => 0)) 4096
             {| sfile := "main.c"; sline := 7; sfunction := "main";
                smodule := "NET"; level := "E"; message := "m" |}
             "t" "%H:%M:%S" eq_refl (or_introl eq_refl) HC)).
    right. vm_compute. discriminate.
Defined.

(** ** Where the result lives *)

Lemma holds_storage (C : Z) (m : memory) (p : ptr) (cap : Z) (s : string) :
  0 < C ->
  holds C (m, p, cap) s ->
  (p = PScratch <-> Z.of_nat (String.length s) < C) /\
  (p = PHeap <-> C <= Z.of_nat (String.length s)).
Proof.
  intros HC (_ & _ & (i & Hcap & Hroom & Hmin) & Hptr).
  assert (Hsmall : Z.of_nat (String.length s) < C -> cap <= C).
  { intros Hlt. specialize (Hmin 0%nat). simpl in Hmin. lia. }
  split.
  - split; [intros -> | intros Hlt].
    + destruct Hptr as [[_ ->] | [Hp _]]; [lia | discriminate].
    + destruct Hptr as [[Hp _] | [_ Hgt]]; [exact Hp | specialize (Hsmall Hlt); lia].
  - split; [intros -> | intros Hge].
    + destruct Hptr as [[Hp _] | [_ Hgt]]; [discriminate|].
      destruct (Z.lt_ge_cases (Z.of_nat (String.length s)) C) as [Hlt|]; [|assumption].
      specialize (Hsmall Hlt). lia.
    + destruct Hptr as [[_ ->] | [Hp _]]; [lia | exact Hp].
Qed.

(** A returned buffer [holds] its text, when the buffer could take it. *)
Lemma format_holds (b : build) (w : world) (logger : clog) (C : Z)
    (x : context) (m : memory) (p : ptr) (cap : Z) (text : string) :
  _clog_format b w logger C x = Ret (m, p, cap) ->
  load m p = Ret text ->
  fits w C (Z.of_nat (String.length text)) ->
  holds C (m, p, cap) text.
Proof.
  intros Hrun Hload Hfit.
  assert (Ht : text = rendering b w logger (based b x) (c_str (fmt logger)) NORMAL).
  { apply (expansion_text b w logger C). unfold expansion.
    rewrite Hrun. exact Hload. }
  rewrite Ht in Hfit.
  destruct (clog_format_total b w logger C x Hfit) as (r & Hr & Hh).
  rewrite Hrun in Hr. injection Hr as <-. now rewrite Ht.
Qed.

(** X5.  The pointer [_clog_format] returns is the scratch buffer exactly
    when the text and its terminator fit in [buf_size] bytes; otherwise it
    is a heap block, and the final capacity is the least doubling of
    [buf_size] that holds the text and its terminator. *)
Theorem result_storage (b : build) (w : world) (logger : clog) (C : Z)
    (x : context) (m : memory) (p : ptr) (cap : Z) (text : string) :
  _clog_format b w logger C x = Ret (m, p, cap) ->
  load m p = Ret text ->
  fits w C (Z.of_nat (String.length text)) ->
  (p = PScratch <-> Z.of_nat (String.length text) < C) /\
  (p = PHeap <-> C <= Z.of_nat (String.length text)) /\
  least_doubling C (Z.of_nat (String.length text) + 1) cap.
Proof.
  intros Hrun Hload Hfit.
  assert (HC : 0 < C) by (destruct Hfit; assumption).
  pose proof (format_holds b w logger C x m p cap text Hrun Hload Hfit) as Hh.
  destruct (holds_storage C m p cap text HC Hh) as (Hs & Hp).
  destruct Hh as (_ & _ & Hleast & _).
  split; [exact Hs|]. split; [exact Hp | exact Hleast].
Qed.

(** Witness of [result_storage]: an 11-byte line in a scratch region of 8
    bytes ends in a heap block of 16 bytes. *)
Lemma result_storage_witness :
  _clog_format posix_build quiet_world
    (with_fmt (_clog_logger posix_build (fun _ => 0)) "%e: %m") 8
    {| sfile := "main.c"; sline := 7; sfunction := "main"; smodule := "NET";
       level := "E"; message := "no link" |}
  = Ret ({| scratch := "NET: "; heap := "NET: no link" |}, PHeap, 16) /\
  (PHeap = PHeap <-> 8 <= Z.of_nat (String.length "NET: no link")).
Proof.
  assert (H : _clog_format posix_build quiet_world
                (with_fmt (_clog_logger posix_build (fun _ => 0)) "%e: %m") 8
                {| sfile := "main.c"; sline := 7; sfunction := "main";
                   smodule := "NET"; level := "E"; message := "no link" |}
              = Ret ({| scratch := "NET: "; heap := "NET: no link" |}, PHeap, 16))
    by (vm_compute; reflexivity).
  split; [exact H|].
  apply (result_storage _ _ _ _ _ _ _ _ "NET: no link" H eq_refl).
  split; [lia|]. exists 1%nat. split.
  - vm_compute. split; reflexivity.
  - intros n _. reflexivity.
Defined.

(** ** The scratch region after migration *)

Section Migration.

Variable b : build.
Variable w : world.
Variable logger : clog.
Variable x : context.

(** A property of buffers that every returning append preserves is kept by
    the whole scan. *)
Lemma format_loop_invariant (P : buffer -> Prop) :
  (forall m p cap src r',
      P (m, p, cap) -> _clog_append_str w m p PScratch src cap = Ret r' -> P r') ->
  forall (t : string) (st st' : scan_state) (r r' : buffer),
    P r -> format_loop b w logger x t st r = Ret (st', r') -> P r'.
Proof.
  intros Hstep. induction t as [|c t IH]; intros st st' r r' HP H; simpl in H.
  - now injection H as _ <-.
  - destruct (format_step b w logger x st r c) as [[st1 r1]|] eqn:E;
      cbn [bind] in H; [|discriminate].
    apply (IH st1 st' r1 r'); [|exact H].
    destruct r as [[m p] cap]. unfold format_step in E. destruct st.
    + destruct (c =? "%")%char; [now injection E as _ <-|].
      destruct (_clog_append_str _ _ _ _ _ _) as [r2|] eqn:E2;
        cbn [bind] in E; [|discriminate].
      injection E as _ <-. exact (Hstep _ _ _ _ _ HP E2).
    + rewrite substitute_spec in E.
      destruct (substitution b w logger x c) as [src|]; cbn [bind] in E.
      * destruct (_clog_append_str _ _ _ _ _ _) as [r2|] eqn:E2;
          cbn [bind] in E; [|discriminate].
        injection E as _ <-. exact (Hstep _ _ _ _ _ HP E2).
      * now injection E as _ <-.
Qed.

Lemma append_keeps_prefix (m : memory) (p : ptr) (cap : Z) (src : string)
    (r' : buffer) :
  scratch_is_prefix (m, p, cap) ->
  _clog_append_str w m p PScratch src cap = Ret r' ->
  scratch_is_prefix r'.
Proof.
  intros (Hs & Hp) H. unfold _clog_append_str in H.
  assert (Hsrc : nul_free (c_str src)) by apply c_str_nul_free.
  destruct Hp as [-> | (-> & rest & Hheap & Hrest)]; cbn [load bind] in H;
    destruct (grow_size _ _) as [new|]; try discriminate;
    destruct (new =? cap); cbn [ptr_eqb realloc bind] in H.
  - unfold strcat in H. cbn [load bind store] in H. injection H as <-.
    split; [|now left]. cbn [scratch]. rewrite Hs.
    now apply nul_free_append.
  - unfold malloc, strcpy in H. cbn [load bind] in H.
    destruct (alloc_ok w new); cbn [store bind] in H; [|discriminate].
    unfold strcat in H. cbn [load bind store heap scratch] in H.
    injection H as <-. cbn [scratch heap]. split; [exact Hs|].
    right. split; [reflexivity|]. exists (c_str src).
    rewrite Hs, Hs. split; [reflexivity | exact Hsrc].
  - unfold strcat in H. cbn [load bind store] in H. injection H as <-.
    cbn [scratch heap]. split; [exact Hs|]. right. split; [reflexivity|].
    exists (rest ++ c_str src). rewrite Hheap.
    assert (Hh : nul_free (scratch m ++ rest)) by now apply nul_free_append.
    rewrite Hh, append_assoc. split; [reflexivity | now apply nul_free_append].
  - destruct (alloc_ok w new); cbn [bind] in H.
    + unfold strcat in H. cbn [load bind store] in H. injection H as <-.
      cbn [scratch heap]. split; [exact Hs|]. right. split; [reflexivity|].
      exists (rest ++ c_str src). rewrite Hheap.
      assert (Hh : nul_free (scratch m ++ rest)) by now apply nul_free_append.
      rewrite Hh, append_assoc. split; [reflexivity | now apply nul_free_append].
    + unfold strcat in H. cbn [load bind] in H. discriminate.
Qed.

(** An append that returns a heap pointer has not written to the scratch
    region: neither while migrating nor afterwards. *)
Lemma append_heap_keeps_scratch (m : memory) (p : ptr) (src : string)
    (cap : Z) (m' : memory) (p' : ptr) (cap' : Z) :
  _clog_append_str w m p PScratch src cap = Ret (m', p', cap') ->
  p' = PHeap ->
  scratch m' = scratch m.
Proof.
  unfold _clog_append_str. intros H Hp.
  destruct p; cbn [load bind] in H; [discriminate| |];
    destruct (grow_size _ _) as [new|]; try discriminate;
    destruct (new =? cap); cbn [ptr_eqb realloc bind] in H.
  - unfold strcat in H. cbn [load bind store] in H.
    injection H as _ <- _. discriminate.
  - unfold malloc, strcpy in H. cbn [load bind] in H.
    destruct (alloc_ok w new); cbn [store bind] in H; [|discriminate].
    unfold strcat in H. cbn [load bind store heap scratch] in H.
    injection H as <- _ _. reflexivity.
  - unfold strcat in H. cbn [load bind store] in H.
    injection H as <- _ _. reflexivity.
  - destruct (alloc_ok w new); cbn [bind] in H;
      unfold strcat in H; cbn [load bind store] in H; [|discriminate].
    injection H as <- _ _. reflexivity.
Qed.

(** An append on a heap buffer returns a heap buffer. *)
Lemma append_stays_on_heap (m : memory) (src : string) (cap : Z)
    (m' : memory) (p' : ptr) (cap' : Z) :
  _clog_append_str w m PHeap PScratch src cap = Ret (m', p', cap') ->
  p' = PHeap.
Proof.
  unfold _clog_append_str. intros H. cbn [load bind] in H.
  destruct (grow_size _ _) as [new|]; [|discriminate].
  destruct (new =? cap); cbn [ptr_eqb realloc bind] in H.
  - unfold strcat in H. cbn [load bind store] in H. now injection H as _ <- _.
  - destruct (alloc_ok w new); cbn [bind] in H;
      unfold strcat in H; cbn [load bind store] in H; [|discriminate].
    now injection H as _ <- _.
Qed.

(** From a heap buffer on, the scan stays on the heap and leaves the
    scratch region exactly as it found it. *)
Lemma format_loop_on_heap (t : string) (st st' : scan_state) (m : memory)
    (cap : Z) (m' : memory) (p' : ptr) (cap' : Z) :
  format_loop b w logger x t st (m, PHeap, cap) = Ret (st', (m', p', cap')) ->
  p' = PHeap /\ scratch m' = scratch m.
Proof.
  intros H.
  apply (format_loop_invariant
           (fun r => let '(m1, p1, _) := r in p1 = PHeap /\ scratch m1 = scratch m))
    with (r := (m, PHeap, cap)) (r' := (m', p', cap')) (t := t) (st := st) (st' := st');
    [| split; reflexivity | exact H].
  intros m1 p1 cap1 src [[m2 p2] cap2] [-> Hs] Hrun.
  pose proof (append_stays_on_heap _ _ _ _ _ _ Hrun) as ->.
  split; [reflexivity|].
  rewrite (append_heap_keeps_scratch _ _ _ _ _ _ _ Hrun eq_refl). exact Hs.
Qed.

End Migration.

(** X6.  Once the buffer has migrated to the heap, [_clog_format] no longer
    writes to the scratch region.  Every append that returns a heap pointer
    leaves the scratch region exactly as it was, the migrating one included;
    from a heap buffer on, the scan stays on the heap and never changes the
    scratch region; so if the expansion of a template [T1] ends on the heap,
    the expansion of [T1] followed by any [T2] ends on the heap with the
    very same scratch content, and that content is a prefix of the returned
    text.  This holds for every template, context and allocator. *)
Theorem scratch_untouched_after_migration (b : build) (w : world)
    (logger : clog) (x : context) :
  (forall m p src cap m' p' cap',
      _clog_append_str w m p PScratch src cap = Ret (m', p', cap') ->
      p' = PHeap ->
      scratch m' = scratch m) /\
  (forall t st m cap st' m' p' cap',
      format_loop b w logger x t st (m, PHeap, cap) = Ret (st', (m', p', cap')) ->
      p' = PHeap /\ scratch m' = scratch m) /\
  (forall C T1 T2 m1 cap1 m2 p2 cap2,
      nul_free T1 ->
      _clog_format b w (with_fmt logger T1) C x = Ret (m1, PHeap, cap1) ->
      _clog_format b w (with_fmt logger (T1 ++ T2)) C x = Ret (m2, p2, cap2) ->
      p2 = PHeap /\ scratch m2 = scratch m1 /\
      exists rest, heap m2 = scratch m1 ++ rest).
Proof.
  split; [|split].
  - intros m p src cap m' p' cap'. apply append_heap_keeps_scratch.
  - intros t st m cap st' m' p' cap'. apply format_loop_on_heap.
  - intros C T1 T2 m1 cap1 m2 p2 cap2 HT1 H1 H2.
    unfold _clog_format in H1, H2. cbn [store bind heap scratch fmt with_fmt] in H1, H2.
    rewrite (c_str_append _ _ HT1) in H2. rewrite HT1 in H1.
    rewrite format_loop_with_fmt in H1, H2. rewrite format_loop_app in H2.
    destruct (format_loop b w logger (based b x) T1 NORMAL _) as [[st1 r1]|] eqn:E1;
      cbn [bind] in H1, H2; [|discriminate].
    injection H1 as ->.
    destruct (format_loop b w logger (based b x) (c_str T2) st1 _)
      as [[st2 r2]|] eqn:E2; cbn [bind] in H2; [|discriminate].
    injection H2 as ->.
    destruct (format_loop_on_heap b w logger (based b x) _ _ _ _ _ _ _ _ E2)
      as [-> Hs].
    split; [reflexivity|]. split; [exact Hs|].
    assert (P : scratch_is_prefix (m2, PHeap, cap2)).
    { assert (P1 : scratch_is_prefix (m1, PHeap, cap1)).
      { assert (P0 : scratch_is_prefix
                       ({| scratch := EmptyString; heap := EmptyString |}, PScratch, C)).
        { split; [reflexivity | now left]. }
        exact (format_loop_invariant b w logger (based b x) scratch_is_prefix
                 (append_keeps_prefix w) _ _ _ _ _ P0 E1). }
      exact (format_loop_invariant b w logger (based b x) scratch_is_prefix
               (append_keeps_prefix w) _ _ _ _ _ P1 E2). }
    destruct P as (_ & [Hp | (_ & rest & Hheap & _)]); [discriminate|].
    exists rest. now rewrite <- Hs.
Qed.

(** Witness of [scratch_untouched_after_migration]: in a scratch region of
    8 bytes the line migrates while ["%e: %m"] is expanded; expanding
    [" in %g"] after it leaves the 5 bytes of the scratch region alone. *)
Lemma scratch_untouched_after_migration_witness :
  nul_free "%e: %m" /\
  _clog_format posix_build quiet_world
    (with_fmt (_clog_logger posix_build (fun _ => 0)) "%e: %m") 8
    {| sfile := "main.c"; sline := 7; sfunction := "main"; smodule := "NET";
       level := "E"; message := "no link" |}
  = Ret ({| scratch := "NET: "; heap := "NET: no link" |}, PHeap, 16) /\
  _clog_format posix_build quiet_world
    (with_fmt (_clog_logger posix_build (fun _ => 0)) ("%e: %m" ++ " in %g")) 8
    {| sfile := "main.c"; sline := 7; sfunction := "main"; smodule := "NET";
       level := "E"; message := "no link" |}
  = Ret ({| scratch := "NET: "; heap := "NET: no link in main" |}, PHeap, 32) /\
  scratch {| scratch := "NET: "; heap := "NET: no link in main" |}
  = scratch {| scratch := "NET: "; heap := "NET: no link" |}.
Proof.
  assert (H1 : _clog_format posix_build quiet_world
                 (with_fmt (_clog_logger posix_build (fun _ => 0)) "%e: %m") 8
                 {| sfile := "main.c"; sline := 7; sfunction := "main";
                    smodule := "NET"; level := "E"; message := "no link" |}
               = Ret ({| scratch := "NET: "; heap := "NET: no link" |}, PHeap, 16))
    by (vm_compute; reflexivity).
  assert (H2 : _clog_format posix_build quiet_world
                 (with_fmt (_clog_logger posix_build (fun _ => 0))
                    ("%e: %m" ++ " in %g")) 8
                 {| sfile := "main.c"; sline := 7; sfunction := "main";
                    smodule := "NET"; level := "E"; message := "no link" |}
               = Ret ({| scratch := "NET: "; heap := "NET: no link in main" |},
                      PHeap, 32))
    by (vm_compute; reflexivity).
  split; [reflexivity|]. split; [exact H1|]. split; [exact H2|].
  exact (proj1 (proj2 (proj2 (proj2
           (scratch_untouched_after_migration posix_build quiet_world
              (_clog_logger posix_build (fun _ => 0))
              {| sfile := "main.c"; sline := 7; sfunction := "main";
                 smodule := "NET"; level := "E"; message := "no link" |}))
           8 "%e: %m" " in %g" _ _ _ _ _ eq_refl H1 H2))).
Defined.

(** ** Failing to grow *)

(** X7.  [_clog_append_str] does not check what [malloc] and [realloc]
    return: when an append needs more room and the allocator refuses every
    larger block, the call faults on the NULL pointer instead of returning
    an error or a truncated buffer. *)
Theorem refused_allocation_faults (w : world) (C : Z) (m : memory) (p : ptr)
    (cap : Z) (s src : string) :
  holds C (m, p, cap) s ->
  (exists k : nat,
      Z.of_nat (String.length s) + strlen src < C * 2 ^ Z.of_nat k < SIZE_MAX1) ->
  cap <= Z.of_nat (String.length s) + strlen src ->
  (forall n, cap < n -> alloc_ok w n = false) ->
  _clog_append_str w m p PScratch src cap = Stuck NullDeref.
Proof.
  intros (Hload & Hnf & (i & Hcap & Hroom & Hleast) & Hptr) (kk & Hk) Hneed Hno.
  set (need := Z.of_nat (String.length s) + strlen src) in *.
  assert (HC : 0 < C).
  { destruct (Z.lt_ge_cases 0 C) as [|HC0]; [assumption|].
    pose proof (pow2_pos kk). pose proof (strlen_nonneg src). nia. }
  assert (Hneed0 : 0 <= need < SIZE_MAX1).
  { pose proof (pow2_pos kk). pose proof (strlen_nonneg src). unfold need. lia. }
  assert (Hik : (i <= kk)%nat).
  { apply (scale_le_inv C); [exact HC|]. rewrite <- Hcap. apply Hleast. lia. }
  assert (Hcap0 : 0 < cap) by lia.
  assert (Hfit : need < cap * 2 ^ Z.of_nat (kk - i) < SIZE_MAX1).
  { rewrite Hcap, scale_add. replace (i + (kk - i))%nat with kk by lia. exact Hk. }
  destruct (grow_exact 64 need cap (kk - i) Hcap0
              (scale_below_64 _ _ Hcap0 (proj2 Hfit)) Hfit)
    as (k & _ & Hgrow & Hlt & _).
  assert (Hgt : cap < cap * 2 ^ Z.of_nat k) by lia.
  unfold _clog_append_str. rewrite Hload. cbn [bind].
  rewrite (strlen_nul_free s Hnf). fold need.
  rewrite (to_size_small need Hneed0). unfold grow_size. rewrite Hgrow.
  assert (Hne : (cap * 2 ^ Z.of_nat k =? cap) = false) by (apply Z.eqb_neq; lia).
  rewrite Hne.
  destruct Hptr as [[-> _] | [-> _]]; cbn [ptr_eqb realloc bind].
  - unfold malloc. rewrite (Hno _ Hgt). unfold strcpy.
    cbn [load] in *. rewrite Hload. reflexivity.
  - rewrite (Hno _ Hgt). reflexivity.
Qed.

(** Witness of [refused_allocation_faults]: 6 bytes into the fresh buffer
    of 4 bytes, with an allocator that refuses everything. *)
Lemma refused_allocation_faults_witness :
  _clog_append_str
    {| alloc_ok := fun _ => false; strftime_text := fun s => s;
       clock_ticks := 0; open_result := fun _ => 3;
       write_result := fun _ _ => 0 |}
    {| scratch := EmptyString; heap := EmptyString |} PScratch PScratch
    "abcdef" 4
  = Stuck NullDeref.
Proof.
  apply (refused_allocation_faults _ 4 _ _ _ EmptyString).
  - apply (holds_fresh 4). lia.
  - exists 1%nat. vm_compute. split; reflexivity.
  - vm_compute. discriminate.
  - reflexivity.
Defined.

(** ** The doubling loop *)

(** X8.  The loop [while (... >= new_size) new_size *= 2;] exits within 64
    doublings or never: more rounds than 64 never change its outcome.  From
    capacity 0 it never exits, so [_clog_append_str] with [cur_size = 0]
    does not return, whatever is appended. *)
Theorem doubling_loop_decided (need cur : Z) (fuel : nat) :
  0 <= need ->
  (64 <= fuel)%nat ->
  grow fuel need cur = grow_size need cur /\
  grow fuel need 0 = None /\
  forall (w : world) (m : memory) (p : ptr) (src : string),
    p <> PNull ->
    _clog_append_str w m p PScratch src 0 = Stuck Hang.
Proof.
  intros Hneed Hfuel. split; [|split].
  - unfold grow_size. destruct (grow 64 need cur) as [r|] eqn:E.
    + exact (grow_stable _ _ _ _ E fuel Hfuel).
    + now apply grow_64_decides.
  - now apply grow_zero.
  - intros w m p src Hp. unfold _clog_append_str.
    assert (H : forall d, grow_size (to_size (strlen d + strlen src)) 0 = None).
    { intros d. apply grow_zero. unfold to_size, SIZE_MAX1.
      apply Z.mod_pos_bound. lia. }
    destruct p; [contradiction | |]; cbn [load bind]; now rewrite H.
Qed.

(** Witness of [doubling_loop_decided]: 100 rounds from capacity 3 for 10
    bytes give what 64 rounds give, capacity 12. *)
Lemma doubling_loop_decided_witness :
  grow 100 10 3 = grow_size 10 3 /\ grow_size 10 3 = Some 12.
Proof.
  split; [|reflexivity].
  apply (doubling_loop_decided 10 3 100); lia.
Defined.

(** ** Base names, continued *)

Section BasenameAgain.

Variable b : build.

Lemma strrchr_absent (c : ascii) (s : string) :
  contains c (c_str s) = false -> strrchr s c = None.
Proof.
  induction s as [|a s IH]; simpl; [reflexivity|].
  destruct (a =? NUL)%char; [reflexivity|]. simpl.
  intros H. apply orb_false_elim in H as [Ha Hs].
  now rewrite (IH Hs), Ha.
Qed.

Lemma basename_without_separator (path : string) :
  has_separator b (c_str path) = false -> _clog_basename b path = path.
Proof.
  rewrite has_separator_spec. intros H.
  apply orb_false_elim in H as [Hslash Hback].
  unfold _clog_basename. rewrite (strrchr_absent _ _ Hslash).
  destruct (_WIN32 b); [|reflexivity].
  simpl in Hback. now rewrite (strrchr_absent _ _ Hback).
Qed.

End BasenameAgain.

(** X9.  [_clog_basename] is idempotent: applying it to its own result
    changes nothing; and a path without any separator is its own base
    name. *)
Theorem basename_idempotent (b : build) (path : string) :
  _clog_basename b (_clog_basename b path) = _clog_basename b path /\
  (has_separator b (c_str path) = false -> _clog_basename b path = path).
Proof.
  split; [|apply basename_without_separator].
  apply basename_without_separator.
  destruct (basename_spec b path) as (_ & _ & _ & H). exact H.
Qed.

(** Witness of [basename_idempotent]. *)
Lemma basename_idempotent_witness :
  has_separator windows_build (c_str "clog.h") = false /\
  _clog_basename windows_build "clog.h" = "clog.h".
Proof.
  split; [reflexivity|].
  apply (proj2 (basename_idempotent windows_build "clog.h")). reflexivity.
Defined.

(** ** The entry point, end to end *)

Section EntryPoint.

Lemma second_pass_size (n : Z) :
  4096 <= n <= INT_MAX -> n < to_size (to_int (n + 1)).
Proof.
  unfold INT_MAX. intros H.
  destruct (Z.eq_dec n (2 ^ 31 - 1)) as [-> | Hne].
  - vm_compute. reflexivity.
  - rewrite to_int_small by lia.
    rewrite to_size_small by (unfold SIZE_MAX1; lia). lia.
Qed.

Variable w : world.
Variable call : printf_call.

(** Whenever the user message is formatted at all, [dynbuf] holds its full
    text, on the stack for fewer than 4096 bytes and in a heap block
    otherwise. *)
Lemma format_message_some (u : user_message) :
  format_message w call = Ret (Some u) ->
  dyn_text u = c_str (rendered call) /\
  dyn_result u = strlen (rendered call) /\
  (dynbuf u = PScratch /\ strlen (rendered call) < 4096 \/
   dynbuf u = PHeap /\ 4096 <= strlen (rendered call)).
Proof.
  unfold format_message, vsnprintf, strlen. cbn [ptr_eqb andb].
  set (text := c_str (rendered call)).
  set (n := Z.of_nat (String.length text)).
  assert (Hn : 0 <= n) by (unfold n; lia).
  destruct (INT_MAX <? n) eqn:Ebig; cbn [bind].
  - change (to_size (-1)) with (2 ^ 64 - 1).
    change (4096 <=? 2 ^ 64 - 1) with true. cbv iota.
    change (to_size (to_int (-1 + 1))) with 0.
    destruct (fetches call); [discriminate|].
    rewrite andb_false_r. cbn [bind].
    change (to_size (-1)) with (2 ^ 64 - 1).
    change (0 <=? 2 ^ 64 - 1) with true. discriminate.
  - apply Z.ltb_ge in Ebig.
    rewrite (to_size_small n) by (unfold SIZE_MAX1, INT_MAX in *; lia).
    destruct (4096 <=? n) eqn:Elong.
    + apply Z.leb_le in Elong.
      pose proof (second_pass_size n (conj Elong Ebig)) as Hsize.
      destruct (fetches call); [discriminate|].
      unfold malloc. destruct (alloc_ok w _); cbn [ptr_eqb andb].
      * cbn [bind]. rewrite (to_size_small n) by (unfold SIZE_MAX1, INT_MAX in *; lia).
        destruct (_ <=? n) eqn:E; [apply Z.leb_le in E; lia|].
        rewrite (take_all _ text) by (unfold n in *; lia).
        intros [= <-]. cbn [dyn_text dyn_result dynbuf].
        repeat split. now right.
      * destruct (0 <? _) eqn:E; [discriminate | apply Z.ltb_ge in E; lia].
    + apply Z.leb_gt in Elong.
      rewrite (take_all _ text) by (unfold n in *; lia).
      intros [= <-]. cbn [dyn_text dyn_result dynbuf].
      repeat split. now left.
Qed.

Variable b : build.
Variable logger : clog.

(** What a returned report says when the call was not abandoned. *)
Lemma clog_log_inv (f g e : string) (n : Z) (lvl : clog_level) (rep : log_report) :
  _clog_log b w logger f n g e lvl call = Ret rep ->
  user rep <> None ->
  exists u name m msg cap text,
    format_message w call = Ret (Some u) /\
    level_name lvl = Ret name /\
    _clog_format b w logger 4096
      {| sfile := f; sline := n; sfunction := g; smodule := e;
         level := name; message := dyn_text u |} = Ret (m, msg, cap) /\
    load m msg = Ret text /\
    user rep = Some u /\
    line rep = Some (msg, text) /\
    sent rep = match active_sink b logger with
               | NoSink => None
               | s => Some (s, text)
               end /\
    errors rep = (if match active_sink b logger with
                     | FileSink d => to_int (write_result w d text)
                     | ConsoleSink c => c text
                     | NoSink => dyn_result u
                     end =? -1
                  then _clog_err b UnableToWrite else []%list) /\
    freed_line rep = negb (ptr_eqb msg PScratch) /\
    freed_message rep = negb (ptr_eqb (dynbuf u) PScratch).
Proof.
  unfold _clog_log. intros H Hu.
  destruct (format_message w call) as [[u|]|] eqn:Hm; cbn [bind] in H;
    try discriminate.
  2:{ injection H as <-. now contradiction Hu. }
  destruct (level_name lvl) as [name|] eqn:Hname; cbn [bind] in H; [|discriminate].
  destruct (_clog_format _ _ _ _ _) as [[[m msg] cap]|] eqn:E;
    cbn [bind] in H; [|discriminate].
  pose proof (clog_format_nonnull _ _ _ _ _ _ _ _ E) as Hnn.
  destruct (load m msg) as [text|] eqn:Hl;
    [|destruct msg; simpl in Hl; congruence].
  exists u, name, m, msg, cap, text.
  destruct msg; [contradiction| |]; cbn [ptr_eqb bind] in H;
    destruct (active_sink b logger); injection H as <-;
    cbn [user line sent errors freed_line freed_message];
    repeat split; try assumption; reflexivity.
Qed.

End EntryPoint.

Section EntryPointFacts.

Variable b : build.
Variable w : world.
Variable logger : clog.

(** The call is abandoned with "Formatting failed (1)" only for a message
    of more than [INT_MAX] bytes. *)
Lemma format_message_none (call : printf_call) :
  format_message w call = Ret None -> INT_MAX < strlen (rendered call).
Proof.
  unfold format_message, vsnprintf, strlen. cbn [ptr_eqb andb].
  set (text := c_str (rendered call)).
  set (n := Z.of_nat (String.length text)).
  destruct (INT_MAX <? n) eqn:Ebig; [intros _; now apply Z.ltb_lt in Ebig|].
  apply Z.ltb_ge in Ebig. cbn [bind].
  rewrite (to_size_small n) by (unfold SIZE_MAX1, INT_MAX, n in *; lia).
  destruct (4096 <=? n) eqn:Elong; [|discriminate].
  apply Z.leb_le in Elong.
  pose proof (second_pass_size n (conj Elong Ebig)) as Hsize.
  destruct (fetches call); [discriminate|].
  unfold malloc. destruct (alloc_ok w _); cbn [ptr_eqb andb].
  - cbn [bind]. rewrite (to_size_small n) by (unfold SIZE_MAX1, INT_MAX, n in *; lia).
    destruct (_ <=? n) eqn:E; [apply Z.leb_le in E; lia | discriminate].
  - destruct (0 <? _) eqn:E; [discriminate | apply Z.ltb_ge in E; lia].
Qed.

Lemma clog_log_user (f g e : string) (n : Z) (lvl : clog_level)
    (call : printf_call) (rep : log_report) :
  strlen (rendered call) <= INT_MAX ->
  _clog_log b w logger f n g e lvl call = Ret rep ->
  user rep <> None.
Proof.
  intros Hlen H. unfold _clog_log in H.
  destruct (format_message w call) as [[u|]|] eqn:Hm; cbn [bind] in H;
    try discriminate.
  - destruct (level_name lvl); cbn [bind] in H; [|discriminate].
    destruct (_clog_format _ _ _ _ _) as [[[m msg] cap]|]; cbn [bind] in H;
      [|discriminate].
    destruct (ptr_eqb msg PNull); [injection H as <-; discriminate|].
    destruct (load m msg); cbn [bind] in H; [|discriminate].
    destruct (active_sink b logger); injection H as <-; discriminate.
  - apply format_message_none in Hm. lia.
Qed.

End EntryPointFacts.

(** X10.  What reaches the sink is the expansion of the logger's template.
    Take a user message that [_clog_log] formats with a usable argument
    list: one of fewer than 4096 bytes (a single [vsnprintf] pass), or a
    longer one of at most [INT_MAX] bytes whose format fetches no argument.
    Then a returning [_clog_log] has produced exactly the text
    [_clog_format] gives for the one-letter name of the level and the full
    user message, has handed that text to the active sink (and to none when
    no sink is active), and has not reported "Formatting failed (1)". *)
Theorem log_delivers_expansion (b : build) (w : world) (logger : clog)
    (f g e : string) (n : Z) (lvl : clog_level) (call : printf_call)
    (rep : log_report) :
  strlen (rendered call) < 4096 \/
  fetches call = false /\ strlen (rendered call) <= INT_MAX ->
  _clog_log b w logger f n g e lvl call = Ret rep ->
  exists name text,
    level_name lvl = Ret name /\
    expansion b w logger 4096
      {| sfile := f; sline := n; sfunction := g; smodule := e;
         level := name; message := c_str (rendered call) |} = Ret text /\
    option_map snd (line rep) = Some text /\
    sent rep = match active_sink b logger with
               | NoSink => None
               | s => Some (s, text)
               end /\
    ~ In FormattingFailed1 (errors rep).
Proof.
  intros Hcall H.
  assert (Hlen : strlen (rendered call) <= INT_MAX).
  { destruct Hcall as [Hshort | [_ Hlen]]; [unfold INT_MAX; lia | exact Hlen]. }
  pose proof (clog_log_user b w logger f g e n lvl call rep Hlen H) as Hu.
  destruct (clog_log_inv w call b logger f g e n lvl rep H Hu)
    as (u & name & m & msg & cap & text & Hm & Hname & Hfmt & Hload & _ & Hline
        & Hsent & Herr & _).
  destruct (format_message_some w call u Hm) as (Htext & _).
  exists name, text. rewrite Htext in Hfmt.
  repeat split; try assumption.
  - unfold expansion. rewrite Hfmt. exact Hload.
  - now rewrite Hline.
  - rewrite Herr. destruct (_ =? -1); [|intros []].
    unfold _clog_err. destruct (CLOG_SILENT b); simpl; intuition discriminate.
Qed.

(** Witness of [log_delivers_expansion]: an INFO call on a logger that
    writes to descriptor 3. *)
Lemma log_delivers_expansion_witness :
  strlen (rendered {| rendered := "ready"; fetches := true |}) < 4096 /\
  exists rep,
    _clog_log file_build (opening 3)
      (set_sink (_clog_logger file_build (fun _ => 0)) 3 None)
      "a/b.c" 9 "run" "CORE" LEVEL_INFO
      {| rendered := "ready"; fetches := true |} = Ret rep /\
    sent rep = Some (FileSink 3, "I: CORE: b.c(9): run: ready" ++ endl).
Proof.
  assert (Hshort : strlen (rendered {| rendered := "ready"; fetches := true |}) < 4096)
    by (vm_compute; reflexivity).
  split; [exact Hshort|].
  eexists. split; [vm_compute; reflexivity|].
  match goal with
  | |- sent ?r = _ =>
      destruct (log_delivers_expansion file_build (opening 3)
                  (set_sink (_clog_logger file_build (fun _ => 0)) 3 None)
                  "a/b.c" "run" "CORE" 9 LEVEL_INFO
                  {| rendered := "ready"; fetches := true |} r)
        as (name & text & Hname & Hexp & _ & Hsent & _)
  end.
  - left. exact Hshort.
  - vm_compute. reflexivity.
  - rewrite Hsent. injection Hname as <-.
    vm_compute in Hexp. injection Hexp as <-. reflexivity.
Defined.

(** X11.  [_clog_log] stores what the sink call returns in [int result]
    and reports "Unable to write to log file" exactly when that [int] is
    -1 (and [CLOG_SILENT] is not defined): for the file sink this is the
    value of [write] cut to 32 bits, which is -1 exactly when [write]
    returned -1 as long as the value lies between -1 and [2^32 - 2].  When
    no sink is active nothing is reported, although [result] then still
    holds the value of [vsnprintf]. *)
Theorem write_error_reported (b : build) (w : world) (logger : clog)
    (f g e : string) (n : Z) (lvl : clog_level) (call : printf_call)
    (rep : log_report) :
  strlen (rendered call) <= INT_MAX ->
  _clog_log b w logger f n g e lvl call = Ret rep ->
  errors rep =
  match sent rep with
  | Some (FileSink d, text) =>
      if to_int (write_result w d text) =? -1
      then _clog_err b UnableToWrite else []%list
  | Some (ConsoleSink c, text) =>
      if c text =? -1 then _clog_err b UnableToWrite else []%list
  | _ => []%list
  end /\
  (forall d text,
      sent rep = Some (FileSink d, text) ->
      -1 <= write_result w d text < 2 ^ 32 - 1 ->
      errors rep =
      if write_result w d text =? -1 then _clog_err b UnableToWrite else []%list).
Proof.
  intros Hlen H.
  pose proof (clog_log_user b w logger f g e n lvl call rep Hlen H) as Hu.
  destruct (clog_log_inv w call b logger f g e n lvl rep H Hu)
    as (u & name & m & msg & cap & text & Hm & _ & _ & _ & _ & _
        & Hsent & Herr & _).
  destruct (format_message_some w call u Hm) as (_ & Hres & _).
  pose proof (strlen_nonneg (rendered call)) as Hpos.
  assert (E : (dyn_result u =? -1) = false) by (apply Z.eqb_neq; lia).
  assert (Hall : errors rep =
                 match sent rep with
                 | Some (FileSink d, text) =>
                     if to_int (write_result w d text) =? -1
                     then _clog_err b UnableToWrite else []%list
                 | Some (ConsoleSink c, text) =>
                     if c text =? -1 then _clog_err b UnableToWrite else []%list
                 | _ => []%list
                 end).
  { rewrite Herr, Hsent. destruct (active_sink b logger); try reflexivity.
    now rewrite E. }
  split; [exact Hall|].
  intros d text' Hd Hrange. rewrite Hall, Hd.
  assert (Hcut : (to_int (write_result w d text') =? -1)
                 = (write_result w d text' =? -1)).
  { destruct (Z.eq_dec (write_result w d text') (-1)) as [-> | Hne];
      [reflexivity|].
    assert (Hz : to_int (write_result w d text') <> -1).
    { destruct (Z.lt_ge_cases (write_result w d text') (2 ^ 31)).
      - rewrite to_int_small by lia. exact Hne.
      - rewrite to_int_cut by lia. lia. }
    apply Z.eqb_neq in Hz, Hne. now rewrite Hz, Hne. }
  now rewrite Hcut.
Qed.

(** Witness of [write_error_reported]: a [write] that returns -1, and one
    that returns [2^32 - 1], which the [int] turns into -1. *)
Lemma write_error_reported_witness :
  (exists rep,
      _clog_log file_build
        {| alloc_ok := fun _ => true; strftime_text := fun s => s;
           clock_ticks := 0; open_result := fun _ => 3;
           write_result := fun _ _ => -1 |}
        (set_sink (_clog_logger file_build (fun _ => 0)) 3 None)
        "a/b.c" 9 "run" "CORE" LEVEL_INFO
        {| rendered := "ready"; fetches := false |} = Ret rep /\
      errors rep = [UnableToWrite]%list) /\
  (exists rep,
      _clog_log file_build
        {| alloc_ok := fun _ => true; strftime_text := fun s => s;
           clock_ticks := 0; open_result := fun _ => 3;
           write_result := fun _ _ => 4294967295 |}
        (set_sink (_clog_logger file_build (fun _ => 0)) 3 None)
        "a/b.c" 9 "run" "CORE" LEVEL_INFO
        {| rendered := "ready"; fetches := false |} = Ret rep /\
      errors rep = [UnableToWrite]%list).
Proof.
  split.
  - eexists. split; [vm_compute; reflexivity|].
    match goal with
    | |- errors ?r = _ =>
        rewrite (proj2 (write_error_reported file_build
                   {| alloc_ok := fun _ => true; strftime_text := fun s => s;
                      clock_ticks := 0; open_result := fun _ => 3;
                      write_result := fun _ _ => -1 |}
                   (set_sink (_clog_logger file_build (fun _ => 0)) 3 None)
                   "a/b.c" "run" "CORE" 9 LEVEL_INFO
                   {| rendered := "ready"; fetches := false |} r
                   ltac:(vm_compute; discriminate) ltac:(vm_compute; reflexivity))
                 3 ("I: CORE: b.c(9): run: ready" ++ endl))
    end.
    + reflexivity.
    + reflexivity.
    + cbn [write_result]. lia.
  - eexists. split; [vm_compute; reflexivity|].
    match goal with
    | |- errors ?r = _ =>
        rewrite (proj1 (write_error_reported file_build
                   {| alloc_ok := fun _ => true; strftime_text := fun s => s;
                      clock_ticks := 0; open_result := fun _ => 3;
                      write_result := fun _ _ => 4294967295 |}
                   (set_sink (_clog_logger file_build (fun _ => 0)) 3 None)
                   "a/b.c" "run" "CORE" 9 LEVEL_INFO
                   {| rendered := "ready"; fetches := false |} r
                   ltac:(vm_compute; discriminate) ltac:(vm_compute; reflexivity)))
    end.
    reflexivity.
Defined.

(** X12.  [_clog_log] frees exactly the heap blocks it obtained: the line
    is freed exactly when it has 4096 bytes or more (it then left
    [message_buf]), and the user message is freed exactly when it has 4096
    bytes or more (it then left [buf]). *)
Theorem log_frees_what_it_allocated (b : build) (w : world) (logger : clog)
    (f g e : string) (n : Z) (lvl : clog_level) (call : printf_call)
    (rep : log_report) (p : ptr) (text : string) :
  strlen (rendered call) <= INT_MAX ->
  _clog_log b w logger f n g e lvl call = Ret rep ->
  line rep = Some (p, text) ->
  fits w 4096 (Z.of_nat (String.length text)) ->
  (freed_line rep = true <-> 4096 <= Z.of_nat (String.length text)) /\
  (freed_message rep = true <-> 4096 <= strlen (rendered call)).
Proof.
  intros Hlen H Hline Hfit.
  pose proof (clog_log_user b w logger f g e n lvl call rep Hlen H) as Hu.
  destruct (clog_log_inv w call b logger f g e n lvl rep H Hu)
    as (u & name & m & msg & cap & text' & Hm & _ & Hfmt & Hload & _ & Hline'
        & _ & _ & Hfl & Hfm).
  rewrite Hline in Hline'. injection Hline' as -> ->.
  assert (HC : 0 < 4096) by lia.
  destruct (holds_storage 4096 _ _ _ _ HC
              (format_holds _ _ _ _ _ _ _ _ _ Hfmt Hload Hfit)) as (Hs & Hh).
  destruct (format_message_some w call u Hm) as (_ & _ & Hdyn).
  rewrite Hfl, Hfm. split.
  - destruct msg; cbn [ptr_eqb negb].
    + split; [discriminate|]. intros Hge. apply Hh in Hge. discriminate.
    + split; [discriminate|]. intros Hge. apply Hh in Hge. discriminate.
    + split; [intros _; now apply Hh | reflexivity].
  - destruct Hdyn as [[-> Hlt] | [-> Hge]]; cbn [ptr_eqb negb].
    + split; [discriminate | lia].
    + split; [intros _; exact Hge | reflexivity].
Qed.

(** Witness of [log_frees_what_it_allocated]: a short line is not freed. *)
Lemma log_frees_what_it_allocated_witness :
  exists rep,
    _clog_log posix_build quiet_world (_clog_logger posix_build (fun _ => 0))
      "a/b.c" 9 "run" "CORE" LEVEL_INFO
      {| rendered := "ready"; fetches := false |} = Ret rep /\
    (freed_line rep = true <->
     4096 <= Z.of_nat (String.length ("I: CORE: b.c(9): run: ready" ++ endl))) /\
    (freed_message rep = true <-> 4096 <= strlen "ready").
Proof.
  eexists. split; [vm_compute; reflexivity|].
  match goal with
  | |- (freed_line ?r = _ <-> _) /\ _ =>
      apply (log_frees_what_it_allocated posix_build quiet_world
               (_clog_logger posix_build (fun _ => 0))
               "a/b.c" "run" "CORE" 9 LEVEL_INFO
               {| rendered := "ready"; fetches := false |} r PScratch)
  end.
  - vm_compute. discriminate.
  - vm_compute. reflexivity.
  - reflexivity.
  - apply fits_scratch; [unfold SIZE_MAX1; lia | vm_compute; reflexivity].
Defined.



(** X14.  With [CLOG_SILENT] defined nothing is written through
    [_clog_err]: neither [clog_init_file], nor [clog_init_console], nor
    [_clog_log] reports a diagnostic, whatever fails. *)
Theorem silent_build_reports_nothing (b : build) (w : world) (logger : clog) :
  CLOG_SILENT b = true ->
  (forall path, snd (clog_init_file b w logger path) = []%list) /\
  (forall c, snd (clog_init_console b logger c) = []%list) /\
  (forall f g e n lvl call rep,
      _clog_log b w logger f n g e lvl call = Ret rep -> errors rep = []%list).
Proof.
  intros Hs. split; [|split].
  - intros path. unfold clog_init_file, _clog_err. rewrite Hs.
    destruct (CLOG_FILE_SUPPORT b); [|reflexivity].
    destruct (_ =? -1); reflexivity.
  - intros [c|]; unfold clog_init_console, _clog_err; now rewrite ?Hs.
  - intros f g e n lvl call rep. unfold _clog_log, _clog_err. rewrite Hs.
    destruct (format_message w call) as [[u|]|]; cbn [bind]; try discriminate.
    + destruct (level_name lvl); cbn [bind]; [|discriminate].
      destruct (_clog_format _ _ _ _ _) as [[[m msg] cap]|]; cbn [bind];
        [|discriminate].
      destruct (ptr_eqb msg PNull); [now intros [= <-]|].
      destruct (load m msg); cbn [bind]; [|discriminate].
      destruct (active_sink b logger); intros [= <-]; cbn [errors];
        destruct (_ =? -1); reflexivity.
    + now intros [= <-].
Qed.

(** Witness of [silent_build_reports_nothing]: a failing [open]. *)
Lemma silent_build_reports_nothing_witness :
  open_result (opening (-1)) "/no/such/dir/log" = -1 /\
  snd (clog_init_file
         {| CLOG_TIME_SUPPORT := false; CLOG_FILE_SUPPORT := true;
            CLOG_SILENT := true; _WIN32 := false |}
         (opening (-1)) (_clog_logger file_build (fun _ => 0)) "/no/such/dir/log")
  = []%list.
Proof.
  split; [reflexivity|].
  exact (proj1 (silent_build_reports_nothing
                  {| CLOG_TIME_SUPPORT := false; CLOG_FILE_SUPPORT := true;
                     CLOG_SILENT := true; _WIN32 := false |}
                  (opening (-1)) (_clog_logger file_build (fun _ => 0))
                  eq_refl) "/no/such/dir/log").
Defined.

(** ** Choosing the sink *)

(** X15.  [clog_init_console] rejects NULL: it returns 1 and leaves the
    logger as it was.  For a function [c] it returns 0 and makes [c] the
    active sink in every build, also when a file had been opened before:
    with file support the stored descriptor is reset to 0. *)
Theorem init_console_selects_console (b : build) (logger : clog) :
  fst (clog_init_console b logger None) = (1, logger) /\
  forall c : console,
    fst (clog_init_console b logger (Some c))
    = (0, snd (fst (clog_init_console b logger (Some c)))) /\
    active_sink b (snd (fst (clog_init_console b logger (Some c)))) = ConsoleSink c /\
    clog_close_file b (snd (fst (clog_init_console b logger (Some c)))) = None /\
    fmt (snd (fst (clog_init_console b logger (Some c)))) = fmt logger.
Proof.
  split; [reflexivity|]. intros c.
  unfold clog_init_console, active_sink, clog_close_file, set_sink.
  cbn [fst snd fd fun_ fmt].
  destruct (CLOG_FILE_SUPPORT b); repeat split.
Qed.

(** X16.  In a build without file support [clog_init_file] opens nothing,
    returns 0 and still sets the console function to NULL: afterwards no
    sink is active and [_clog_log] delivers nothing. *)
Theorem init_file_without_support (b : build) (w : world) (logger : clog)
    (path : string) :
  CLOG_FILE_SUPPORT b = false ->
  fst (fst (clog_init_file b w logger path)) = 0 /\
  snd (clog_init_file b w logger path) = []%list /\
  active_sink b (snd (fst (clog_init_file b w logger path))) = NoSink /\
  forall f g e n lvl call rep,
    _clog_log b w (snd (fst (clog_init_file b w logger path))) f n g e lvl call
    = Ret rep ->
    sent rep = None.
Proof.
  intros Hfs.
  assert (Hsink : active_sink b (snd (fst (clog_init_file b w logger path))) = NoSink).
  { unfold clog_init_file, active_sink. now rewrite Hfs. }
  split; [|split; [|split; [exact Hsink|]]];
    try (unfold clog_init_file; now rewrite Hfs).
  intros f g e n lvl call rep. unfold _clog_log.
  destruct (format_message w call) as [[u|]|]; cbn [bind]; try discriminate.
  - destruct (level_name lvl); cbn [bind]; [|discriminate].
    destruct (_clog_format _ _ _ _ _) as [[[m msg] cap]|]; cbn [bind];
      [|discriminate].
    destruct (ptr_eqb msg PNull); [now intros [= <-]|].
    destruct (load m msg); cbn [bind]; [|discriminate].
    rewrite Hsink. now intros [= <-].
  - now intros [= <-].
Qed.

(** Witness of [init_file_without_support]. *)
Lemma init_file_without_support_witness :
  CLOG_FILE_SUPPORT posix_build = false /\
  active_sink posix_build
    (snd (fst (clog_init_file posix_build quiet_world
                 (_clog_logger posix_build (fun _ => 0)) "log.txt")))
  = NoSink.
Proof.
  split; [reflexivity|].
  exact (proj1 (proj2 (proj2 (init_file_without_support posix_build quiet_world
                  (_clog_logger posix_build (fun _ => 0)) "log.txt" eq_refl)))).
Defined.

(** X17.  [clog_close_file] closes the descriptor that a successful
    [clog_init_file] stored, unless that descriptor is 0, and nothing after
    a failed one on the initial logger; it never resets the stored
    descriptor, so the closed file stays the active sink. *)
Theorem close_file_after_init (b : build) (w : world) (printf : console)
    (path : string) :
  CLOG_FILE_SUPPORT b = true ->
  (open_result w path = -1 ->
   clog_close_file b
     (snd (fst (clog_init_file b w (_clog_logger b printf) path))) = None) /\
  (open_result w path <> -1 ->
   clog_close_file b
     (snd (fst (clog_init_file b w (_clog_logger b printf) path)))
   = (if open_result w path =? 0 then None else Some (open_result w path)) /\
   (open_result w path <> 0 ->
    active_sink b (snd (fst (clog_init_file b w (_clog_logger b printf) path)))
    = FileSink (open_result w path))).
Proof.
  intros Hfs. unfold clog_init_file, clog_close_file, active_sink. rewrite Hfs.
  split.
  - intros ->. reflexivity.
  - intros Hok. apply Z.eqb_neq in Hok. rewrite Hok. cbn [fst snd set_sink fd fun_ andb].
    split.
    + now destruct (open_result w path =? 0).
    + intros H0. apply Z.eqb_neq in H0. now rewrite H0.
Qed.

(** Witness of [close_file_after_init]: descriptor 3 is closed, and stays
    the active sink. *)
Lemma close_file_after_init_witness :
  CLOG_FILE_SUPPORT file_build = true /\
  open_result (opening 3) "log.txt" <> -1 /\
  clog_close_file file_build
    (snd (fst (clog_init_file file_build (opening 3)
                 (_clog_logger file_build (fun _ => 0)) "log.txt")))
  = Some 3.
Proof.
  assert (H3 : open_result (opening 3) "log.txt" <> -1) by discriminate.
  split; [reflexivity|]. split; [exact H3|].
  exact (proj1 (proj2 (close_file_after_init file_build (opening 3)
                         (fun _ => 0) "log.txt" eq_refl) H3)).
Defined.

(** ** The logging macros *)

(** X18.  The macros are gated on the module's level: a module created at
    [LEVEL_NONE] logs nothing through any of [LOG_D], [LOG_I], [LOG_W] and
    [LOG_E] (no formatting happens at all), a module at [LEVEL_DEBUG] always
    reaches [_clog_log], and a macro that is gated off stays gated off at
    every lower severity. *)
Theorem macros_gated_by_level (b : build) (w : world) (logger : clog)
    (cb : clog_control_block_t) (file function : string) (line_no : Z)
    (call : printf_call) :
  (module_level cb = LEVEL_NONE ->
   LOG_D b w logger cb file line_no function call = Ret None /\
   LOG_I b w logger cb file line_no function call = Ret None /\
   LOG_W b w logger cb file line_no function call = Ret None /\
   LOG_E b w logger cb file line_no function call = Ret None) /\
  (module_level cb = LEVEL_DEBUG ->
   forall severity,
     log_macro severity b w logger cb file line_no function call
     = (rep <- _clog_log b w logger file line_no function (module_name cb)
                 severity call ;;
        Ret (Some rep))) /\
  (forall high low,
      (level_index low <= level_index high)%nat ->
      log_macro high b w logger cb file line_no function call = Ret None ->
      log_macro low b w logger cb file line_no function call = Ret None).
Proof.
  split; [|split].
  - intros H. unfold LOG_D, LOG_I, LOG_W, LOG_E, log_macro, gate. rewrite H.
    repeat split.
  - intros H severity. unfold log_macro, gate. rewrite H. reflexivity.
  - intros high low Hle. unfold log_macro, gate.
    destruct (level_index (module_level cb) <=? level_index high)%nat eqn:E.
    + destruct (_clog_log _ _ _ _ _ _ _ high _); cbn [bind]; discriminate.
    + intros _. apply Nat.leb_gt in E.
      destruct (level_index (module_level cb) <=? level_index low)%nat eqn:E2;
        [apply Nat.leb_le in E2; lia | reflexivity].
Qed.

(** Witness of [macros_gated_by_level]: a module at [LEVEL_WARN] drops
    [LOG_I], hence [LOG_D]. *)
Lemma macros_gated_by_level_witness :
  LOG_I posix_build quiet_world (_clog_logger posix_build (fun _ => 0))
    {| module_name := "NET"; module_level := LEVEL_WARN |} "net.c" 3 "up"
    {| rendered := "link up"; fetches := false |} = Ret None /\
  LOG_D posix_build quiet_world (_clog_logger posix_build (fun _ => 0))
    {| module_name := "NET"; module_level := LEVEL_WARN |} "net.c" 3 "up"
    {| rendered := "link up"; fetches := false |} = Ret None.
Proof.
  assert (H : LOG_I posix_build quiet_world (_clog_logger posix_build (fun _ => 0))
                {| module_name := "NET"; module_level := LEVEL_WARN |} "net.c" 3 "up"
                {| rendered := "link up"; fetches := false |} = Ret None)
    by reflexivity.
  split; [exact H|].
  apply (proj2 (proj2 (macros_gated_by_level posix_build quiet_world
                         (_clog_logger posix_build (fun _ => 0))
                         {| module_name := "NET"; module_level := LEVEL_WARN |}
                         "net.c" "up" 3
                         {| rendered := "link up"; fetches := false |}))
           LEVEL_INFO LEVEL_DEBUG).
  - simpl. lia.
  - exact H.
Defined.

(** ** Buffer management is transparent *)

(** X19.  The text of an expansion does not depend on the size of the
    scratch region: what one capacity yields, every other capacity that can
    take the text yields too, whether the buffer has to grow or not. *)
Theorem expansion_independent_of_capacity (b : build) (w : world)
    (logger : clog) (C1 C2 : Z) (x : context) (text : string) :
  expansion b w logger C1 x = Ret text ->
  fits w C2 (Z.of_nat (String.length text)) ->
  expansion b w logger C2 x = Ret text.
Proof.
  intros H Hfit. apply expansion_text in H. subst text.
  now apply expansion_total.
Qed.

(** Witness of [expansion_independent_of_capacity]: the default template in
    a scratch region of 4096 bytes and in one of a single byte. *)
Lemma expansion_independent_of_capacity_witness :
  expansion posix_build quiet_world (_clog_logger posix_build (fun _ => 0)) 4096
    {| sfile := "a/b.c"; sline := 9; sfunction := "run"; smodule := "CORE";
       level := "I"; message := "ready" |}
  = Ret ("I: CORE: b.c(9): run: ready" ++ endl) /\
  expansion posix_build quiet_world (_clog_logger posix_build (fun _ => 0)) 1
    {| sfile := "a/b.c"; sline := 9; sfunction := "run"; smodule := "CORE";
       level := "I"; message := "ready" |}
  = Ret ("I: CORE: b.c(9): run: ready" ++ endl).
Proof.
  assert (H : expansion posix_build quiet_world
                (_clog_logger posix_build (fun _ => 0)) 4096
                {| sfile := "a/b.c"; sline := 9; sfunction := "run";
                   smodule := "CORE"; level := "I"; message := "ready" |}
              = Ret ("I: CORE: b.c(9): run: ready" ++ endl))
    by (vm_compute; reflexivity).
  split; [exact H|].
  apply (expansion_independent_of_capacity _ _ _ 4096 1 _ _ H).
  split; [lia|]. exists 5%nat. split.
  - vm_compute. split; reflexivity.
  - intros n _. reflexivity.
Defined.

(** ** The default template *)

Section DefaultTemplate.

Variable b : build.
Variable w : world.
Variable logger : clog.
Variable x : context.

Lemma substitution_plain :
  substitution b w logger x "l" = Some (level x) /\
  substitution b w logger x "e" = Some (smodule x) /\
  substitution b w logger x "f" = Some (sfile x) /\
  substitution b w logger x "g" = Some (sfunction x) /\
  substitution b w logger x "m" = Some (message x).
Proof.
  unfold substitution. destruct (CLOG_TIME_SUPPORT b); repeat split.
Qed.

Lemma substitution_line :
  - 2 ^ 31 <= sline x < 2 ^ 31 ->
  substitution b w logger x "n" = Some (decimal (sline x)).
Proof.
  intros Hint. pose proof (int_decimal_short _ Hint) as Hshort.
  pose proof (snprintf_ld_fits _ Hshort) as Hbuf.
  apply Z.leb_gt in Hshort.
  unfold substitution, snprintf_ld in *. cbn [snd] in Hbuf.
  destruct (CLOG_TIME_SUPPORT b);
    cbn [andb Ascii.eqb Bool.eqb]; now rewrite Hshort, Hbuf.
Qed.

End DefaultTemplate.

(** X20.  Without time support, the default template produces the line
    [level: module: file(line): function: message] and a line feed, with
    the file cut to its base name and the line number in decimal, for every
    context whose line number is an [int] (and a buffer that can take the
    line). *)
Theorem default_line_shape (b : build) (w : world) (printf : console) (C : Z)
    (x : context) :
  CLOG_TIME_SUPPORT b = false ->
  - 2 ^ 31 <= sline x < 2 ^ 31 ->
  fits w C (Z.of_nat (String.length
    (c_str (level x) ++ ": " ++ c_str (smodule x) ++ ": " ++
     c_str (_clog_basename b (sfile x)) ++ "(" ++ decimal (sline x) ++ "): " ++
     c_str (sfunction x) ++ ": " ++ c_str (message x) ++ endl))) ->
  expansion b w (_clog_logger b printf) C x
  = Ret (c_str (level x) ++ ": " ++ c_str (smodule x) ++ ": " ++
         c_str (_clog_basename b (sfile x)) ++ "(" ++ decimal (sline x) ++ "): " ++
         c_str (sfunction x) ++ ": " ++ c_str (message x) ++ endl).
Proof.
  intros Hts Hint Hfit.
  assert (E : rendering b w (_clog_logger b printf) (based b x)
                (c_str (fmt (_clog_logger b printf))) NORMAL
              = c_str (level x) ++ ": " ++ c_str (smodule x) ++ ": " ++
                c_str (_clog_basename b (sfile x)) ++ "(" ++ decimal (sline x)
                ++ "): " ++ c_str (sfunction x) ++ ": " ++ c_str (message x)
                ++ endl).
  { cbn [fmt _clog_logger]. unfold CLOG_DEFAULT_FORMAT. rewrite Hts.
    destruct (substitution_plain b w (_clog_logger b printf) (based b x))
      as (Hl & He & Hf & Hg & Hm).
    pose proof (substitution_line b w (_clog_logger b printf) (based b x) Hint) as Hn.
    cbn [based sline level smodule sfile sfunction message] in *.
    cbn [append c_str rendering Ascii.eqb Bool.eqb NUL LF endl].
    rewrite Hl, He, Hf, Hg, Hm, Hn.
    rewrite (nul_free_decimal (sline x)).
    reflexivity. }
  rewrite expansion_total; [now rewrite E | now rewrite E].
Qed.

(** Witness of [default_line_shape]. *)
Lemma default_line_shape_witness :
  expansion posix_build quiet_world (_clog_logger posix_build (fun _ => 0)) 4096
    {| sfile := "src/net/tcp.c"; sline := 120; sfunction := "tcp_open";
       smodule := "NET"; level := "W"; message := "retrying" |}
  = Ret ("W: NET: tcp.c(120): tcp_open: retrying" ++ endl).
Proof.
  apply (default_line_shape posix_build quiet_world (fun _ => 0) 4096
           {| sfile := "src/net/tcp.c"; sline := 120; sfunction := "tcp_open";
              smodule := "NET"; level := "W"; message := "retrying" |}).
  - reflexivity.
  - cbn [sline]. lia.
  - apply fits_scratch; [unfold SIZE_MAX1; lia | vm_compute; reflexivity].
Defined.
